(** * ChatPage: the incremental streaming response processor

    A shallow embedding of [src/pages/ChatPage.tsx]: the brace-depth
    tokenizer [parseJSONStream], the event dispatch of the read loop of
    [handleSendMessage], and the terminal paths of a turn
    ([handleCancelRequest], the [catch] and [finally] blocks).

    JavaScript strings are modelled as [string]; indices and lengths are
    [nat]; the brace counter, which may go below zero, is [Z].  A call
    either returns a value or throws ([Completion]).

    What the JavaScript runtime does is not in the sources.  [JSON.parse]
    and the conversion to string that [+] applies to a value that is no
    string are parameters of the definitions and of the theorems; a model
    of [JSON.parse] ([JSON.parse] below) instantiates them on samples.
    [handleSendMessage] is an [async] function: it is modelled up to its
    first [await], and from there as a turn that each event resumes, an
    event being what the pending promise settles with ([fetch],
    [response.text()], [reader.read()]) or the user's cancellation.  The
    request that [fetch] sends is left out. *)

From Stdlib Require Import String Ascii List ZArith Lia Bool Arith DecimalString.
Import ListNotations.

Local Open Scope string_scope.

#[local] Set Warnings "-register-all".

(** ** Completions: values and thrown exceptions *)

(** What a [catch (error)] clause can observe of a thrown value:
    [error instanceof Error], [error.name] and [error.message]. *)
Inductive Thrown : Type :=
| ErrorObject (name message : string)
| NonError.

Inductive Completion (A : Type) : Type :=
| Normal (a : A)
| Throw (e : Thrown).

Arguments Normal {A} a.
Arguments Throw {A} e.

Definition bind {A B : Type} (m : Completion A) (k : A -> Completion B) : Completion B :=
  match m with
  | Normal a => k a
  | Throw e => Throw e
  end.

(** [try { body } catch (e) { handler e }] *)
Definition try_catch {A : Type} (body : Completion A) (handler : Thrown -> Completion A)
  : Completion A :=
  match body with
  | Normal a => Normal a
  | Throw e => handler e
  end.

Declare Scope completion_scope.
Delimit Scope completion_scope with completion.
Notation "x <- m ;; k" := (bind m (fun x => k))
  (at level 61, m at next level, right associativity) : completion_scope.

(** ** JavaScript string primitives *)

Module JSString.

(** The double quote character, code 34. *)
Definition dquote : ascii := "034"%char.

(** [drop n s] is [s] without its first [n] characters. *)
Fixpoint drop (n : nat) (s : string) : string :=
  match n, s with
  | O, _ => s
  | S _, EmptyString => EmptyString
  | S n', String _ s' => drop n' s'
  end.

(** [take n s] is the first [n] characters of [s]. *)
Fixpoint take (n : nat) (s : string) : string :=
  match n, s with
  | O, _ => EmptyString
  | S _, EmptyString => EmptyString
  | S n', String c s' => String c (take n' s')
  end.

(** [s.substring(a, b)]: the characters from [min a b] up to, not
    including, [max a b], both clamped to the length of [s]. *)
Definition substring2 (s : string) (a b : nat) : string :=
  String.substring (Nat.min a b) (Nat.max a b - Nat.min a b) s.

(** [s.substring(a)]: from [a] to the end of [s]. *)
Definition substring1 (s : string) (a : nat) : string :=
  substring2 s a (String.length s).

(** [hay.includes(needle)] *)
Fixpoint includes (hay needle : string) : bool :=
  String.prefix needle hay
  || match hay with
     | EmptyString => false
     | String _ hay' => includes hay' needle
     end.

(** Concatenation of a list of strings, in order. *)
Definition concat (l : list string) : string := String.concat "" l.

End JSString.

(** ** The stream tokenizer: [parseJSONStream] *)

Section Tokenizer.

(** The tokenizer never inspects the values [JSON.parse] returns, so it
    is stated over any type [A] of parsed values.  [JSON_parse] either
    returns a value or throws. *)
Context {A : Type}.
Variable JSON_parse : string -> Completion A.

(** The local variables of [parseJSONStream], together with [console],
    the arguments of the [console.warn] calls made so far. *)
Record Cursor : Type := mkCursor {
  parsed : list A;
  console : list string;
  depth : Z;
  start : nat;
  inString : bool;
  escaped : bool
}.

Definition set_escaped (b : bool) (c : Cursor) : Cursor :=
  mkCursor (parsed c) (console c) (depth c) (start c) (inString c) b.
Definition set_inString (b : bool) (c : Cursor) : Cursor :=
  mkCursor (parsed c) (console c) (depth c) (start c) b (escaped c).
Definition set_depth (d : Z) (c : Cursor) : Cursor :=
  mkCursor (parsed c) (console c) d (start c) (inString c) (escaped c).
Definition set_start (n : nat) (c : Cursor) : Cursor :=
  mkCursor (parsed c) (console c) (depth c) n (inString c) (escaped c).
Definition push (obj : A) (c : Cursor) : Cursor :=
  mkCursor (parsed c ++ [obj])%list (console c) (depth c) (start c) (inString c) (escaped c).
Definition warn (jsonStr : string) (c : Cursor) : Cursor :=
  mkCursor (parsed c) (console c ++ [jsonStr])%list (depth c) (start c) (inString c) (escaped c).

(** The variables as initialised before the loop. *)
Definition init : Cursor := mkCursor [] [] 0%Z 0 false false.

(** One iteration of the [for] loop, at index [i] with [char = remaining[i]]. *)
Definition body (remaining : string) (i : nat) (char : ascii) (c : Cursor)
  : Completion Cursor :=
  if escaped c then Normal (set_escaped false c)
  else if (char =? "\")%char then Normal (set_escaped true c)
  else if (char =? JSString.dquote)%char then Normal (set_inString (negb (inString c)) c)
  else if inString c then Normal c
  else if (char =? "{")%char then Normal (set_depth (depth c + 1) c)
  else if (char =? "}")%char then
    let c := set_depth (depth c - 1) c in
    if (depth c =? 0)%Z then
      let jsonStr := JSString.substring2 remaining (start c) (i + 1) in
      (c <- try_catch
              (obj <- JSON_parse jsonStr ;; Normal (push obj c))
              (fun _ => Normal (warn jsonStr c)) ;;
       Normal (set_start (i + 1) c))%completion
    else Normal c
  else Normal c.

(** The [for] loop from index [i] on; [rest] holds the characters of
    [remaining] from [i] to its end. *)
Fixpoint loop (remaining rest : string) (i : nat) (c : Cursor) : Completion Cursor :=
  match rest with
  | EmptyString => Normal c
  | String char rest' =>
      (c' <- body remaining i char c ;; loop remaining rest' (S i) c')%completion
  end.

(** The returned object [{ parsed, remaining }], with the warnings logged. *)
Record Tokens : Type := mkTokens {
  tk_parsed : list A;
  tk_remaining : string;
  tk_console : list string
}.

Definition parseJSONStream (buffer : string) : Completion Tokens :=
  let remaining := buffer in
  (c <- loop remaining remaining 0 init ;;
   Normal (mkTokens (parsed c) (JSString.substring1 remaining (start c)) (console c)))%completion.

(** [buffer += chunk; parseJSONStream(buffer); buffer = remaining], for
    each chunk in turn; the parsed objects of all calls in order, and
    the final buffer. *)
Fixpoint feed (chunks : list string) (buffer : string)
  : Completion (list A * string) :=
  match chunks with
  | [] => Normal ([], buffer)
  | chunk :: chunks' =>
      (tk <- parseJSONStream (buffer ++ chunk) ;;
       r <- feed chunks' (tk_remaining tk) ;;
       Normal ((tk_parsed tk ++ fst r)%list, snd r))%completion
  end.

End Tokenizer.

Arguments Cursor A : clear implicits.
Arguments Tokens A : clear implicits.

(** ** JavaScript values and [JSON.parse] *)

Module JS.

(** The values [JSON.parse] can return, and [undefined], which reading
    a missing property yields.  A number is kept as its literal: no
    arithmetic is done on event payloads. *)
Inductive Value : Type :=
| Undefined
| Null
| Bool (b : bool)
| Number (literal : string)
| Str (s : string)
| Array (elements : list Value)
| Object (properties : list (string * Value)).

(** The own property [key] of an object built by [JSON.parse]: of
    several members with the same name the last one wins. *)
Fixpoint own (key : string) (properties : list (string * Value)) : Value :=
  match properties with
  | [] => Undefined
  | (k, v) :: properties' =>
      match own key properties' with
      | Undefined => if (k =? key)%string then v else Undefined
      | found => found
      end
  end.

(** [v.key], for a [key] that names no property of the built-in
    prototypes (as [type] and [data]): reading it off [null] or
    [undefined] throws a [TypeError], off an object it is the own
    property, off any other value it is [undefined]. *)
Definition get (v : Value) (key : string) : Completion Value :=
  match v with
  | Undefined =>
      Throw (ErrorObject "TypeError"
               ("Cannot read properties of undefined (reading '" ++ key ++ "')"))
  | Null =>
      Throw (ErrorObject "TypeError"
               ("Cannot read properties of null (reading '" ++ key ++ "')"))
  | Object properties => Normal (own key properties)
  | _ => Normal Undefined
  end.

(** [v === s] for a string literal [s]. *)
Definition strict_eq_string (v : Value) (s : string) : bool :=
  match v with
  | Str s' => (s' =? s)%string
  | _ => false
  end.

End JS.

(** A model of [JSON.parse] on texts within the 8-bit character set of
    [string]: the grammar of ECMA-404, by recursive descent. *)
Module JSON.

Import JS.

Definition is_ws (c : ascii) : bool :=
  ((c =? " ") || (c =? "009") || (c =? "010") || (c =? "013"))%char.

Fixpoint skip_ws (s : string) : string :=
  match s with
  | String c r => if is_ws c then skip_ws r else s
  | EmptyString => s
  end.

Definition is_digit (c : ascii) : bool :=
  let n := nat_of_ascii c in ((48 <=? n) && (n <=? 57))%nat.

Definition hex (c : ascii) : option nat :=
  let n := nat_of_ascii c in
  if ((48 <=? n) && (n <=? 57))%nat then Some (n - 48)
  else if ((65 <=? n) && (n <=? 70))%nat then Some (n - 55)
  else if ((97 <=? n) && (n <=? 102))%nat then Some (n - 87)
  else None.

(** The code unit of [\uXXXX]; [None] when it is no hexadecimal number
    or lies beyond the 8-bit character set. *)
Definition unicode (a b c d : ascii) : option ascii :=
  match hex a, hex b, hex c, hex d with
  | Some x, Some y, Some z, Some w =>
      let n := ((x * 16 + y) * 16 + z) * 16 + w in
      if (n <? 256)%nat then Some (ascii_of_nat n) else None
  | _, _, _, _ => None
  end.

(** The characters of a string literal after its opening quote, decoded,
    and the text after its closing quote. *)
Fixpoint chars (s : string) : option (string * string) :=
  match s with
  | EmptyString => None
  | String c r =>
      if (c =? JSString.dquote)%char then Some (EmptyString, r)
      else if (c =? "\")%char then
        match r with
        | String e r1 =>
            let simple (x : ascii) :=
              match chars r1 with
              | Some (t, r2) => Some (String x t, r2)
              | None => None
              end in
            if (e =? JSString.dquote)%char then simple JSString.dquote
            else if (e =? "\")%char then simple "\"%char
            else if (e =? "/")%char then simple "/"%char
            else if (e =? "b")%char then simple "008"%char
            else if (e =? "f")%char then simple "012"%char
            else if (e =? "n")%char then simple "010"%char
            else if (e =? "r")%char then simple "013"%char
            else if (e =? "t")%char then simple "009"%char
            else if (e =? "u")%char then
              match r1 with
              | String h1 (String h2 (String h3 (String h4 r2))) =>
                  match unicode h1 h2 h3 h4, chars r2 with
                  | Some x, Some (t, r3) => Some (String x t, r3)
                  | _, _ => None
                  end
              | _ => None
              end
            else None
        | EmptyString => None
        end
      else if (nat_of_ascii c <? 32)%nat then None
      else
        match chars r with
        | Some (t, r1) => Some (String c t, r1)
        | None => None
        end
  end.

(** The longest prefix of digits, and what follows it. *)
Fixpoint digits (s : string) : string * string :=
  match s with
  | String c r =>
      if is_digit c then let (d, r') := digits r in (String c d, r') else (EmptyString, s)
  | EmptyString => (EmptyString, s)
  end.

(** A number literal: an optional minus sign; a zero, or a digit from 1
    to 9 and further digits; optionally a point and one digit or more;
    optionally [e] or [E], a sign and one digit or more. *)
Definition number (s : string) : option (string * string) :=
  let (sign, s1) :=
    match s with
    | String "-" r => ("-", r)
    | _ => ("", s)
    end in
  let int :=
    match s1 with
    | String "0" r => Some ("0", r)
    | _ => let (d, r) := digits s1 in
           match d with EmptyString => None | _ => Some (d, r) end
    end in
  match int with
  | None => None
  | Some (i, s2) =>
      let frac :=
        match s2 with
        | String "." r =>
            let (d, r') := digits r in
            match d with EmptyString => None | _ => Some ("." ++ d, r') end
        | _ => Some ("", s2)
        end in
      match frac with
      | None => None
      | Some (f, s3) =>
          let exp :=
            match s3 with
            | String e r =>
                if ((e =? "e") || (e =? "E"))%char then
                  let (sg, r1) :=
                    match r with
                    | String "+" r' => ("+", r')
                    | String "-" r' => ("-", r')
                    | _ => ("", r)
                    end in
                  let (d, r2) := digits r1 in
                  match d with
                  | EmptyString => None
                  | _ => Some (String e (sg ++ d), r2)
                  end
                else Some ("", s3)
            | EmptyString => Some ("", s3)
            end in
          match exp with
          | None => None
          | Some (x, s4) => Some (sign ++ i ++ f ++ x, s4)
          end
      end
  end.

Section Composite.

(** The parser of a value, one level of nesting down. *)
Variable value : string -> option (Value * string).

(** The members of an object after its opening brace, from a member
    name on; [n] bounds their number. *)
Fixpoint members (n : nat) (s : string) (acc : list (string * Value))
  : option (Value * string) :=
  match n with
  | O => None
  | S n' =>
      match skip_ws s with
      | String q r =>
          if (q =? JSString.dquote)%char then
            match chars r with
            | Some (k, r1) =>
                match skip_ws r1 with
                | String ":" r2 =>
                    match value r2 with
                    | Some (v, r3) =>
                        match skip_ws r3 with
                        | String "," r4 => members n' r4 (acc ++ [(k, v)])%list
                        | String "}" r4 => Some (Object (acc ++ [(k, v)])%list, r4)
                        | _ => None
                        end
                    | None => None
                    end
                | _ => None
                end
            | None => None
            end
          else None
      | EmptyString => None
      end
  end.

(** The elements of an array after its opening bracket. *)
Fixpoint elements (n : nat) (s : string) (acc : list Value)
  : option (Value * string) :=
  match n with
  | O => None
  | S n' =>
      match value s with
      | Some (v, r) =>
          match skip_ws r with
          | String "," r1 => elements n' r1 (acc ++ [v])%list
          | String "]" r1 => Some (Array (acc ++ [v])%list, r1)
          | _ => None
          end
      | None => None
      end
  end.

End Composite.

(** A value, with white space before it; [fuel] bounds the nesting. *)
Fixpoint value (fuel : nat) (s : string) : option (Value * string) :=
  match fuel with
  | O => None
  | S fuel' =>
      match skip_ws s with
      | EmptyString => None
      | String c r =>
          if (c =? "{")%char then
            match skip_ws r with
            | String "}" r' => Some (Object [], r')
            | _ => members (value fuel') (String.length r) r []
            end
          else if (c =? "[")%char then
            match skip_ws r with
            | String "]" r' => Some (Array [], r')
            | _ => elements (value fuel') (String.length r) r []
            end
          else if (c =? JSString.dquote)%char then
            match chars r with
            | Some (t, r') => Some (Str t, r')
            | None => None
            end
          else if String.prefix "true" (String c r) then
            Some (Bool true, JSString.drop 4 (String c r))
          else if String.prefix "false" (String c r) then
            Some (Bool false, JSString.drop 5 (String c r))
          else if String.prefix "null" (String c r) then
            Some (Null, JSString.drop 4 (String c r))
          else
            match number (String c r) with
            | Some (lit, r') => Some (Number lit, r')
            | None => None
            end
      end
  end.

(** [JSON.parse(text)]: one value, white space around it, nothing else;
    a [SyntaxError] otherwise. *)
Definition parse (text : string) : Completion Value :=
  match value (S (String.length text)) text with
  | Some (v, r) =>
      match skip_ws r with
      | EmptyString => Normal v
      | _ => Throw (ErrorObject "SyntaxError" "Unexpected non-whitespace character after JSON")
      end
  | None => Throw (ErrorObject "SyntaxError" "Unexpected token in JSON")
  end.

End JSON.

(** ** The transcript *)

Inductive Role : Type := user | assistant.

Definition Role_eqb (a b : Role) : bool :=
  match a, b with
  | user, user | assistant, assistant => true
  | _, _ => false
  end.

(** [interface Message]; an optional field that is absent or [undefined]
    is [None] ([JS.Undefined] for [metadata]). *)
Record Message : Type := mkMessage {
  id : string;
  content : string;
  role : Role;
  timestamp : Z;
  isStreaming : option bool;
  reasoning : option string;
  isReasoningComplete : option bool;
  metadata : JS.Value
}.

(** The fields an object spread [{ ...msg, field: value, ... }] overwrites. *)
Record Partial : Type := mkPartial {
  p_content : option string;
  p_isStreaming : option bool;
  p_reasoning : option string;
  p_isReasoningComplete : option bool;
  p_metadata : option JS.Value
}.

Definition no_fields : Partial := mkPartial None None None None None.
Definition content_is (s : string) : Partial := mkPartial (Some s) None None None None.
Definition reasoning_is (s : string) : Partial := mkPartial None None (Some s) None None.
Definition isReasoningComplete_is (b : bool) : Partial :=
  mkPartial None None None (Some b) None.
Definition metadata_is (v : JS.Value) : Partial := mkPartial None None None None (Some v).

Definition overwrite {A : Type} (new : option A) (old : A) : A :=
  match new with
  | Some a => a
  | None => old
  end.

(** [{ ...msg, ...fields }] *)
Definition spread (msg : Message) (fields : Partial) : Message :=
  mkMessage (id msg)
    (overwrite (p_content fields) (content msg))
    (role msg)
    (timestamp msg)
    (match p_isStreaming fields with Some b => Some b | None => isStreaming msg end)
    (match p_reasoning fields with Some s => Some s | None => reasoning msg end)
    (match p_isReasoningComplete fields with Some b => Some b | None => isReasoningComplete msg end)
    (overwrite (p_metadata fields) (metadata msg)).

(** [\n\n*Response was cancelled*] *)
Definition cancellation_notice : string :=
  String "010" (String "010" "*Response was cancelled*").

Definition error_notice : string :=
  "Sorry, I encountered an error while processing your request. Please try again.".

(** The updater functions handed to [setMessages]. *)
Inductive Update : Type :=
| Append (message : Message)
    (* prev => [...prev, message] *)
| Patch (messageId : string) (fields : Partial)
    (* prev => prev.map(msg => msg.id === messageId ? { ...msg, ...fields } : msg) *)
| CancelLast.
    (* the updater of handleCancelRequest, on the last message *)

Fixpoint mapi {A B : Type} (f : A -> nat -> B) (index : nat) (l : list A) : list B :=
  match l with
  | [] => []
  | a :: l' => f a index :: mapi f (S index) l'
  end.

Definition truthy (b : option bool) : bool :=
  match b with
  | Some true => true
  | _ => false
  end.

Definition cancelled (msg : Message) : Message :=
  mkMessage (id msg) (content msg ++ cancellation_notice) (role msg) (timestamp msg)
    (Some false) (reasoning msg) (Some true) (metadata msg).

Definition apply (u : Update) (prev : list Message) : list Message :=
  match u with
  | Append message => (prev ++ [message])%list
  | Patch messageId fields =>
      map (fun msg => if (id msg =? messageId)%string then spread msg fields else msg) prev
  | CancelLast =>
      mapi (fun msg index =>
              if (index =? List.length prev - 1)%nat
                 && Role_eqb (role msg) assistant
                 && truthy (isStreaming msg)
              then cancelled msg
              else msg)
           0 prev
  end.

(** ** The component state *)

Record Toast : Type := mkToast {
  title : string;
  description : string;
  variant : option string
}.

Inductive FileKind : Type := image | document.

Record UploadedFile : Type := mkUploadedFile {
  file : string;
  type : FileKind
}.

Module Model.
(** Modelled from the spec: the type [Model] of [@/types/model], which is
    not among the sources; the model catalog yields a list of
    [{id, name, provider, isReasoning}]. *)
Record t : Type := mk {
  id : string;
  name : string;
  provider : string;
  isReasoning : bool
}.
End Model.

Inductive AbortController : Type := new_AbortController.

(** What the handlers read and never write; [token] is the bearer token
    of the credential provider, [None] when there is none. *)
Record View : Type := mkView {
  selectedModel : string;
  availableModels : list Model.t;
  token : option string
}.

(** The state the handlers write; [updates] records the updaters given
    to [setMessages], oldest first. *)
Record State : Type := mkState {
  messages : list Message;
  updates : list Update;
  inputValue : string;
  isLoading : bool;
  uploadedFiles : list UploadedFile;
  isUserScrolled : bool;
  abortControllerRef : option AbortController;
  toasts : list Toast
}.

(** Each updater is applied as it is issued: the accumulators it reads
    only grow, and every later updater of a field overwrites it. *)
Definition setMessages (u : Update) (s : State) : State :=
  mkState (apply u (messages s)) (updates s ++ [u])%list (inputValue s) (isLoading s)
    (uploadedFiles s) (isUserScrolled s) (abortControllerRef s) (toasts s).
Definition setInputValue (v : string) (s : State) : State :=
  mkState (messages s) (updates s) v (isLoading s)
    (uploadedFiles s) (isUserScrolled s) (abortControllerRef s) (toasts s).
Definition setIsLoading (b : bool) (s : State) : State :=
  mkState (messages s) (updates s) (inputValue s) b
    (uploadedFiles s) (isUserScrolled s) (abortControllerRef s) (toasts s).
Definition setUploadedFiles (l : list UploadedFile) (s : State) : State :=
  mkState (messages s) (updates s) (inputValue s) (isLoading s)
    l (isUserScrolled s) (abortControllerRef s) (toasts s).
Definition setIsUserScrolled (b : bool) (s : State) : State :=
  mkState (messages s) (updates s) (inputValue s) (isLoading s)
    (uploadedFiles s) b (abortControllerRef s) (toasts s).
Definition set_abortControllerRef (r : option AbortController) (s : State) : State :=
  mkState (messages s) (updates s) (inputValue s) (isLoading s)
    (uploadedFiles s) (isUserScrolled s) r (toasts s).
(** Modelled from the spec: [toast] of [@/hooks/use-toast], which is not
    among the sources; a notification channel that receives a title, a
    description and a severity.  The notifications are kept in order. *)
Definition toast (t : Toast) (s : State) : State :=
  mkState (messages s) (updates s) (inputValue s) (isLoading s)
    (uploadedFiles s) (isUserScrolled s) (abortControllerRef s) (toasts s ++ [t])%list.

(** [handleCancelRequest] *)
Definition handleCancelRequest (s : State) : State :=
  match abortControllerRef s with
  | Some _ =>
      let s := set_abortControllerRef None s in
      let s := setIsLoading false s in
      let s := setMessages CancelLast s in
      toast (mkToast "Request Cancelled" "The response generation has been stopped." None) s
  | None => s
  end.

(** ** One turn: [handleSendMessage] *)

(** The local variables of [handleSendMessage] that outlive its first
    [await]. *)
Record Locals : Type := mkLocals {
  aiMessageId : string;
  isReasoningModel : bool;
  accumulatedContent : string;
  accumulatedReasoning : string;
  isReasoningPhase : bool;
  buffer : string
}.

Definition set_accumulatedContent (v : string) (l : Locals) : Locals :=
  mkLocals (aiMessageId l) (isReasoningModel l) v (accumulatedReasoning l)
    (isReasoningPhase l) (buffer l).
Definition set_accumulatedReasoning (v : string) (l : Locals) : Locals :=
  mkLocals (aiMessageId l) (isReasoningModel l) (accumulatedContent l) v
    (isReasoningPhase l) (buffer l).
Definition set_isReasoningPhase (b : bool) (l : Locals) : Locals :=
  mkLocals (aiMessageId l) (isReasoningModel l) (accumulatedContent l)
    (accumulatedReasoning l) b (buffer l).
Definition set_buffer (v : string) (l : Locals) : Locals :=
  mkLocals (aiMessageId l) (isReasoningModel l) (accumulatedContent l)
    (accumulatedReasoning l) (isReasoningPhase l) v.

(** Statements that read and write the locals and the state, and may
    throw: the memory is kept when they do. *)
Definition Mem : Type := Locals * State.
Definition M (A : Type) : Type := Mem -> Completion A * Mem.

Definition ret {A : Type} (a : A) : M A := fun m => (Normal a, m).
Definition bindM {A B : Type} (c : M A) (k : A -> M B) : M B :=
  fun m =>
    match c m with
    | (Normal a, m') => k a m'
    | (Throw e, m') => (Throw e, m')
    end.
Definition lift {A : Type} (c : Completion A) : M A := fun m => (c, m).
Definition local {A : Type} (f : Locals -> A) : M A := fun m => (Normal (f (fst m)), m).
Definition assign (f : Locals -> Locals) : M unit := fun m => (Normal tt, (f (fst m), snd m)).
Definition effect (f : State -> State) : M unit := fun m => (Normal tt, (fst m, f (snd m))).

Declare Scope stmt_scope.
Delimit Scope stmt_scope with stmt.
Notation "x <- c ;; k" := (bindM c (fun x => k))
  (at level 61, c at next level, right associativity) : stmt_scope.
Notation "c ;; k" := (bindM c (fun _ => k))
  (at level 61, right associativity) : stmt_scope.

(** [for (const x of l) { f x }] *)
Fixpoint for_of {A : Type} (l : list A) (f : A -> M unit) : M unit :=
  match l with
  | [] => ret tt
  | x :: l' => (f x ;; for_of l' f)%stmt
  end.

(** [n.toString()] for an integer [n]. *)
Definition toString (n : Z) : string :=
  DecimalString.NilZero.string_of_int (Z.to_int n).

(** The white space [trim] removes, within the 8-bit character set. *)
Definition is_space (c : ascii) : bool :=
  let n := nat_of_ascii c in
  ((9 <=? n) && (n <=? 13) || (n =? 32) || (n =? 160))%nat.

(** [!s.trim()]: nothing is left of [s] once trimmed. *)
Fixpoint blank (s : string) : bool :=
  match s with
  | EmptyString => true
  | String c s' => is_space c && blank s'
  end.

(** [availableModels.find(m => m.id === selectedModel)] *)
Definition find_model (v : View) : option Model.t :=
  List.find (fun m => (Model.id m =? selectedModel v)%string) (availableModels v).

(** The four readings of the clock: [Date.now()] and [new Date()] for the
    user message, then for the assistant message. *)
Record Clock : Type := mkClock {
  now_user : Z;
  date_user : Z;
  now_ai : Z;
  date_ai : Z
}.

(** What the turn is suspended on. *)
Inductive Await : Type :=
| AwaitFetch                  (* await fetch(...) *)
| AwaitText (status : Z)      (* await response.text(), response.ok false *)
| AwaitRead.                  (* await reader.read() *)

(** A turn: suspended at an [await], or returned. *)
Inductive Turn : Type :=
| Suspended (at_ : Await) (l : Locals) (s : State)
| Returned (s : State).

Definition state_of (t : Turn) : State :=
  match t with
  | Suspended _ _ s => s
  | Returned s => s
  end.

(** What resumes a suspended turn. *)
Inductive Event : Type :=
| Response (ok : bool) (status : Z) (body : bool)
    (* fetch resolves; [body] tells whether response.body has a reader *)
| Text (errorText : string)
    (* response.text() resolves *)
| Chunk (text : string)
    (* reader.read() resolves with done false; [text] is the chunk decoded *)
| Done
    (* reader.read() resolves with done true *)
| Rejects (error : Thrown)
    (* the pending promise rejects *)
| Cancel.
    (* the user cancels: handleCancelRequest runs, and the abort makes the
       pending promise reject with an AbortError *)

Definition AbortError : Thrown :=
  ErrorObject "AbortError" "The user aborted a request.".

Section Turn.

Variable JSON_parse : string -> Completion JS.Value.

(** [ToString] of a value that is no string, as the [+] of a string and
    that value computes it; it may throw. *)
Variable ToString : JS.Value -> Completion string.

(** [acc + v] for a string [acc]. *)
Definition plus (acc : string) (v : JS.Value) : Completion string :=
  match v with
  | JS.Str s => Normal (acc ++ s)
  | _ => (s <- ToString v ;; Normal (acc ++ s))%completion
  end.

(** The body of [for (const parsedChunk of parsed)]. *)
Definition dispatch (parsedChunk : JS.Value) : M unit :=
  (ty <- lift (JS.get parsedChunk "type") ;;
   aiMessageId <- local aiMessageId ;;
   if JS.strict_eq_string ty "reasoning" then
     data <- lift (JS.get parsedChunk "data") ;;
     acc <- local accumulatedReasoning ;;
     acc <- lift (plus acc data) ;;
     assign (set_accumulatedReasoning acc) ;;
     effect (setMessages (Patch aiMessageId (reasoning_is acc)))
   else if JS.strict_eq_string ty "content" then
     phase <- local isReasoningPhase ;;
     (if phase : bool then
        assign (set_isReasoningPhase false) ;;
        effect (setMessages (Patch aiMessageId (isReasoningComplete_is true)))
      else ret tt) ;;
     data <- lift (JS.get parsedChunk "data") ;;
     acc <- local accumulatedContent ;;
     acc <- lift (plus acc data) ;;
     assign (set_accumulatedContent acc) ;;
     effect (setMessages (Patch aiMessageId (content_is acc)))
   else if JS.strict_eq_string ty "metadata" then
     data <- lift (JS.get parsedChunk "data") ;;
     effect (setMessages (Patch aiMessageId (metadata_is data)))
   else ret tt)%stmt.

(** One round of the [while (true)] loop, once [reader.read()] has
    given a chunk. *)
Definition on_chunk (chunk : string) : M unit :=
  (old <- local buffer ;;
   assign (set_buffer (old ++ chunk)) ;;
   whole <- local buffer ;;
   tk <- lift (parseJSONStream JSON_parse whole) ;;
   assign (set_buffer (tk_remaining tk)) ;;
   for_of (tk_parsed tk) dispatch)%stmt.

(** The [setMessages] after the loop. *)
Definition on_done : M unit :=
  (aiMessageId <- local aiMessageId ;;
   effect (setMessages
             (Patch aiMessageId (mkPartial None (Some false) None (Some true) None))))%stmt.

(** The description of the error toast. *)
Definition errorMessage_of (error : Thrown) : string :=
  match error with
  | ErrorObject _ message =>
      if JSString.includes message "Failed to fetch" then
        "Unable to connect to server. Please check your connection."
      else if JSString.includes message "401" then
        "Authentication failed. Please log in again."
      else if JSString.includes message "403" then
        "Access denied. Please check your permissions."
      else if JSString.includes message "404" then
        "Chat endpoint not found. Please check server configuration."
      else if JSString.includes message "500" then
        "Server error. Please try again later."
      else "Failed to send message. Please try again."
  | NonError => "Failed to send message. Please try again."
  end.

Definition is_AbortError (error : Thrown) : bool :=
  match error with
  | ErrorObject name _ => (name =? "AbortError")%string
  | NonError => false
  end.

(** The [catch (error)] block. *)
Definition on_catch (error : Thrown) : M unit :=
  if is_AbortError error then ret tt
  else
    (aiMessageId <- local aiMessageId ;;
     effect (toast (mkToast "Error" (errorMessage_of error) (Some "destructive"))) ;;
     effect (setMessages
               (Patch aiMessageId
                  (mkPartial (Some error_notice) (Some false) None None None))))%stmt.

(** The [finally] block. *)
Definition on_finally : M unit :=
  (effect (setIsLoading false) ;;
   effect (set_abortControllerRef None))%stmt.

(** The rest of the [try] statement once its body has run up to the
    next [await] or to its end: a body that threw goes through [catch],
    and every way out goes through [finally]. *)
Definition returns (m : Mem) : Turn :=
  Returned (snd (snd (on_finally m))).

Definition throws (error : Thrown) (m : Mem) : Turn :=
  match on_catch error m with
  | (_, m') => returns m'
  end.

Definition resume (next : Await) (run : Completion unit * Mem) : Turn :=
  match run with
  | (Normal _, (l, s)) => Suspended next l s
  | (Throw error, m) => throws error m
  end.

Definition finish (run : Completion unit * Mem) : Turn :=
  match run with
  | (Normal _, m) => returns m
  | (Throw error, m) => throws error m
  end.

(** The turn resumed by an event.  An event that the pending [await]
    cannot give leaves the turn as it is; a returned turn takes no
    event, but [handleCancelRequest] still runs when the user cancels. *)
Definition step (t : Turn) (e : Event) : Turn :=
  match t with
  | Returned s =>
      match e with
      | Cancel => Returned (handleCancelRequest s)
      | _ => t
      end
  | Suspended at_ l s =>
      match e with
      | Cancel =>
          match abortControllerRef s with
          | Some _ => throws AbortError (l, handleCancelRequest s)
          | None => Suspended at_ l (handleCancelRequest s)
          end
      | Rejects error => throws error (l, s)
      | Response ok status body =>
          match at_ with
          | AwaitFetch =>
              if ok then
                if body then Suspended AwaitRead l s
                else finish (on_done (l, s))
              else Suspended (AwaitText status) l s
          | _ => t
          end
      | Text errorText =>
          match at_ with
          | AwaitText status =>
              throws (ErrorObject "Error"
                        ("HTTP error! status: " ++ toString status
                         ++ ", message: " ++ errorText))
                     (l, s)
          | _ => t
          end
      | Chunk text =>
          match at_ with
          | AwaitRead => resume AwaitRead (on_chunk text (l, s))
          | _ => t
          end
      | Done =>
          match at_ with
          | AwaitRead => finish (on_done (l, s))
          | _ => t
          end
      end
  end.

Definition run (t : Turn) (events : list Event) : Turn :=
  fold_left step events t.

(** [handleSendMessage] up to its first [await]. *)
Definition handleSendMessage (v : View) (clock : Clock) (s : State) : Turn :=
  if (blank (inputValue s) && (List.length (uploadedFiles s) =? 0)%nat) || isLoading s
  then Returned s
  else
    match token v with
    | None | Some EmptyString =>
        Returned (toast (mkToast "Authentication Error" "Please log in to send messages."
                           (Some "destructive")) s)
    | Some _ =>
        let userMessage :=
          mkMessage (toString (now_user clock)) (inputValue s) user (date_user clock)
            None None None JS.Undefined in
        let s := setMessages (Append userMessage) s in
        let s := setInputValue "" s in
        let s := setUploadedFiles [] s in
        let s := setIsLoading true s in
        let s := setIsUserScrolled false s in
        let aiMessageId := toString (now_ai clock + 1) in
        let selectedModelData := find_model v in
        let isReasoningModel :=
          match selectedModelData with
          | Some m => Model.isReasoning m
          | None => false
          end in
        let aiMessage :=
          mkMessage aiMessageId "" assistant (date_ai clock)
            (Some true) (if isReasoningModel then Some "" else None) (Some false)
            JS.Undefined in
        let s := setMessages (Append aiMessage) s in
        let s := set_abortControllerRef (Some new_AbortController) s in
        Suspended AwaitFetch
          (mkLocals aiMessageId isReasoningModel "" "" isReasoningModel "") s
    end.

End Turn.

(** ** Vocabulary of the statements *)

Section Scan.

Context {A : Type}.
Variable JSON_parse : string -> Completion A.

(** [body] and [loop] as functions to cursors; [body_advance] and
    [loop_sweep] show that they are what [body] and [loop] return. *)
Definition advance (remaining : string) (i : nat) (char : ascii) (c : Cursor A)
  : Cursor A :=
  if escaped c then set_escaped false c
  else if (char =? "\")%char then set_escaped true c
  else if (char =? JSString.dquote)%char then set_inString (negb (inString c)) c
  else if inString c then c
  else if (char =? "{")%char then set_depth (depth c + 1) c
  else if (char =? "}")%char then
    let c := set_depth (depth c - 1) c in
    if (depth c =? 0)%Z then
      let jsonStr := JSString.substring2 remaining (start c) (i + 1) in
      set_start (i + 1)
        match JSON_parse jsonStr with
        | Normal obj => push obj c
        | Throw _ => warn jsonStr c
        end
    else c
  else c.

Fixpoint sweep (remaining rest : string) (i : nat) (c : Cursor A) : Cursor A :=
  match rest with
  | EmptyString => c
  | String char rest' => sweep remaining rest' (S i) (advance remaining i char c)
  end.

(** The candidates that parse, as parsed, and those that do not. *)
Definition successes (candidates : list string) : list A :=
  flat_map (fun jsonStr =>
              match JSON_parse jsonStr with
              | Normal obj => [obj]
              | Throw _ => []
              end) candidates.

Definition failures (candidates : list string) : list string :=
  filter (fun jsonStr =>
            match JSON_parse jsonStr with
            | Normal _ => false
            | Throw _ => true
            end) candidates.

(** The cursor right after a candidate was cut: as before the loop, but
    for [start] and the output. *)
Definition at_boundary (c : Cursor A) : Cursor A :=
  mkCursor (parsed c) (console c) 0%Z (start c) false false.

(** [c] is [c'] seen [k] characters further to the right, with output
    [p] and warnings [w] before it. *)
Definition shifted (k : nat) (p : list A) (w : list string) (c c' : Cursor A) : Prop :=
  depth c = depth c' /\ inString c = inString c' /\ escaped c = escaped c'
  /\ start c = start c' + k
  /\ parsed c = (p ++ parsed c')%list /\ console c = (w ++ console c')%list.

(** With [done] the characters scanned so far, the cursor is the one
    reached from its last boundary over the characters after it. *)
Definition anchored (remaining done : string) (c : Cursor A) : Prop :=
  start c <= String.length done
  /\ sweep remaining (JSString.drop (start c) done) (start c) (at_boundary c) = c.

(** [c] is the cursor of the run with [JSON_parse] where [c'] is the
    cursor of the run that accepts every candidate. *)
Definition mirrors (c : Cursor A) (c' : Cursor string) : Prop :=
  depth c = depth c' /\ start c = start c'
  /\ inString c = inString c' /\ escaped c = escaped c'
  /\ parsed c = successes (parsed c')
  /\ console c = failures (parsed c')
  /\ console c' = [].

End Scan.

(** The parser that accepts every candidate and returns it as it is. *)
Definition accept (jsonStr : string) : Completion string := Normal jsonStr.

(** The tokenizer run with [accept]: where it cuts [buffer], whatever
    the candidates hold. *)
Definition cut (buffer : string) : Tokens string :=
  match parseJSONStream accept buffer with
  | Normal tk => tk
  | Throw _ => mkTokens [] buffer []
  end.

(** The substrings of [buffer] handed to [JSON.parse], in order. *)
Definition candidates (buffer : string) : list string := tk_parsed (cut buffer).

(** The cursor when the loop over [text] reaches index [m]. *)
Definition cursor_at (text : string) (m : nat) : Cursor string :=
  match loop accept text (JSString.take m text) 0 init with
  | Normal c => c
  | Throw _ => init
  end.

(** The brace counter stays at zero or below from index [n] to the end. *)
Definition stays_down (text : string) (n : nat) : bool :=
  forallb (fun m => (depth (cursor_at text m) <=? 0)%Z)
          (seq n (S (String.length text) - n)).

(** The events of the wire protocol, and the objects they decode to:
    [{ "type": ..., "data": ... }]. *)
Inductive StreamEvent : Type :=
| EvReasoning (text : string)
| EvContent (text : string)
| EvMetadata (usage : JS.Value).

Definition decoded (e : StreamEvent) : JS.Value :=
  match e with
  | EvReasoning text => JS.Object [("type", JS.Str "reasoning"); ("data", JS.Str text)]
  | EvContent text => JS.Object [("type", JS.Str "content"); ("data", JS.Str text)]
  | EvMetadata usage => JS.Object [("type", JS.Str "metadata"); ("data", usage)]
  end.

Definition is_content (e : StreamEvent) : bool :=
  match e with
  | EvContent _ => true
  | _ => false
  end.

Definition is_reasoning (e : StreamEvent) : bool :=
  match e with
  | EvReasoning _ => true
  | _ => false
  end.

(** The texts of the content events of [events], in order, and those of
    its reasoning events. *)
Definition content_texts (events : list StreamEvent) : list string :=
  flat_map (fun e => match e with EvContent text => [text] | _ => [] end) events.

Definition reasoning_texts (events : list StreamEvent) : list string :=
  flat_map (fun e => match e with EvReasoning text => [text] | _ => [] end) events.

(** What [dispatch] does with a decoded event; [dispatch_decoded] shows
    it. *)
Definition on_event (e : StreamEvent) (m : Mem) : Mem :=
  let (l, s) := m in
  match e with
  | EvReasoning text =>
      let acc := accumulatedReasoning l ++ text in
      (set_accumulatedReasoning acc l,
       setMessages (Patch (aiMessageId l) (reasoning_is acc)) s)
  | EvContent text =>
      let acc := accumulatedContent l ++ text in
      (set_accumulatedContent acc (set_isReasoningPhase false l),
       setMessages (Patch (aiMessageId l) (content_is acc))
         (if isReasoningPhase l
          then setMessages (Patch (aiMessageId l) (isReasoningComplete_is true)) s
          else s))
  | EvMetadata usage =>
      (l, setMessages (Patch (aiMessageId l) (metadata_is usage)) s)
  end.

Definition on_events (events : list StreamEvent) (m : Mem) : Mem :=
  fold_left (fun m e => on_event e m) events m.

(** An updater that writes [isReasoningComplete: true] alone, as the
    first content event of a reasoning phase issues it. *)
Definition marks_reasoning_complete (u : Update) : bool :=
  match u with
  | Patch _ (mkPartial None None None (Some true) None) => true
  | _ => false
  end.

(** The [content] an updater writes, if it is a patch that writes one. *)
Definition content_written (u : Update) : list string :=
  match u with
  | Patch _ fields =>
      match p_content fields with
      | Some text => [text]
      | None => []
      end
  | _ => []
  end.

(** [d1; d1 ++ d2; ...; d1 ++ ... ++ dn], each after [acc]. *)
Fixpoint cumulative (acc : string) (texts : list string) : list string :=
  match texts with
  | [] => []
  | d :: texts' => (acc ++ d) :: cumulative (acc ++ d) texts'
  end.

(** The text of an event on the wire, for a [data] text that needs no
    escaping. *)
Definition quoted (s : string) : string :=
  String JSString.dquote (s ++ String JSString.dquote "").

Definition wire (type data : string) : string :=
  "{" ++ quoted "type" ++ ":" ++ quoted type ++ "," ++ quoted "data" ++ ":" ++ quoted data ++ "}".

(** The stream of the malformed-object scenario: a content event with
    data [a], the text [{bad}], a content event with data [b]. *)
Definition malformed_stream : string :=
  wire "content" "a" ++ "{bad}" ++ wire "content" "b".

(** The last message of the transcript is the assistant message of the
    turn, still streaming, and holds the accumulated content. *)
Definition streaming (l : Locals) (s : State) : Prop :=
  abortControllerRef s <> None
  /\ exists before msg,
       messages s = (before ++ [msg])%list
       /\ id msg = aiMessageId l
       /\ role msg = assistant
       /\ isStreaming msg = Some true
       /\ content msg = accumulatedContent l.

(** The [data] of the last metadata event of [events], if there is one. *)
Fixpoint last_usage (events : list StreamEvent) : option JS.Value :=
  match events with
  | [] => None
  | e :: events' =>
      match last_usage events' with
      | Some usage => Some usage
      | None => match e with EvMetadata usage => Some usage | _ => None end
      end
  end.

(** The fields overwritten by [first], then by [second]. *)
Definition merge (first second : Partial) : Partial :=
  let later {A : Type} (a b : option A) : option A :=
    match b with Some _ => b | None => a end in
  mkPartial (later (p_content first) (p_content second))
            (later (p_isStreaming first) (p_isStreaming second))
            (later (p_reasoning first) (p_reasoning second))
            (later (p_isReasoningComplete first) (p_isReasoningComplete second))
            (later (p_metadata first) (p_metadata second)).

(** The fields the events of [events] leave overwritten, all told, when
    dispatched from the locals [l]. *)
Definition net_fields (l : Locals) (events : list StreamEvent) : Partial :=
  mkPartial
    (if existsb is_content events
     then Some (accumulatedContent l ++ JSString.concat (content_texts events))
     else None)
    None
    (if existsb is_reasoning events
     then Some (accumulatedReasoning l ++ JSString.concat (reasoning_texts events))
     else None)
    (if isReasoningPhase l && existsb is_content events then Some true else None)
    (last_usage events).

(** The last message of the transcript. *)
Definition last_message (s : State) : option Message :=
  List.last (map Some (messages s)) None.

(** The turn has returned, with the loading indicator cleared and the
    abort controller released. *)
Definition returned_clean (t : Turn) : Prop :=
  exists s, t = Returned s /\ isLoading s = false /\ abortControllerRef s = None.

(** A suspended turn is streaming. *)
Definition turn_streaming (t : Turn) : Prop :=
  match t with
  | Suspended _ l s => streaming l s
  | Returned _ => True
  end.

(** A returned turn has the loading indicator cleared and the abort
    controller released. *)
Definition clean (t : Turn) : Prop :=
  match t with
  | Suspended _ _ _ => True
  | Returned s => isLoading s = false /\ abortControllerRef s = None
  end.

(** [selectedModelData?.isReasoning || false] *)
Definition reasoning_enabled (v : View) : bool :=
  match find_model v with
  | Some m => Model.isReasoning m
  | None => false
  end.

(** A sample view, clock and state, and a [ToString] for values that
    are no strings. *)
Definition sample_view (isReasoning : bool) : View :=
  mkView "m1" [Model.mk "m1" "Model One" "google" isReasoning] (Some "secret").

Definition sample_clock : Clock := mkClock 1000 1000 1001 1001.

Definition sample_state : State := mkState [] [] "hello" false [] false None [].

Definition sample_ToString (v : JS.Value) : Completion string :=
  Normal "[object Object]".

(** Sample locals, with an empty buffer and empty accumulators, and the
    events of a sample turn up to its first chunk. *)
Definition sample_locals (isReasoning : bool) : Locals :=
  mkLocals "1002" isReasoning "" "" isReasoning "".

Definition sample_events : list Event :=
  [Response true 200 true; Chunk (wire "content" "Hel")].

(** The stream of the end-to-end scenario: two content events and a
    metadata event with token counts. *)
Definition end_to_end_stream : string :=
  wire "content" "Hi" ++ wire "content" " there"
  ++ "{" ++ quoted "type" ++ ":" ++ quoted "metadata" ++ "," ++ quoted "data" ++ ":{"
  ++ quoted "prompt_tokens" ++ ":5," ++ quoted "completion_tokens" ++ ":2,"
  ++ quoted "total_tokens" ++ ":7}}".

(** ** Vocabulary of the further properties *)

(** The characters between the quotes of a string literal: any
    character but a double quote or a backslash, or a backslash and the
    character after it. *)
Inductive StringBody : string -> Prop :=
| sb_nil : StringBody ""
| sb_char (c : ascii) (s : string) :
    c <> JSString.dquote -> c <> "\"%char -> StringBody s -> StringBody (String c s)
| sb_escape (c : ascii) (s : string) :
    StringBody s -> StringBody (String "\" (String c s)).

(** A text in which the braces outside string literals are balanced:
    plain characters, string literals, and objects that are well nested
    in turn. *)
Inductive WellNested : string -> Prop :=
| wn_nil : WellNested ""
| wn_char (c : ascii) (s : string) :
    c <> "{"%char -> c <> "}"%char -> c <> JSString.dquote -> c <> "\"%char ->
    WellNested s -> WellNested (String c s)
| wn_string (w s : string) :
    StringBody w -> WellNested s ->
    WellNested (String JSString.dquote (w ++ String JSString.dquote s))
| wn_object (x s : string) :
    WellNested x -> WellNested s -> WellNested (String "{" (x ++ String "}" s)).

(** The object with the text [x] between its braces. *)
Definition object (x : string) : string := String "{" (x ++ "}").

(** No character of [s] is a double quote. *)
Fixpoint no_quote (s : string) : bool :=
  match s with
  | EmptyString => true
  | String c s' => negb (c =? JSString.dquote)%char && no_quote s'
  end.

(** Two sample bodies of objects: [q k q : { q x q : q } q }] with [q] the
    double quote, a closing brace inside a string inside a nested
    object; and [q a q :1]. *)
Definition sample_body_nested : string :=
  String JSString.dquote
    ("k" ++ String JSString.dquote
       (String ":"
          (String "{"
             (String JSString.dquote
                ("x" ++ String JSString.dquote
                   (String ":"
                      (String JSString.dquote ("}" ++ String JSString.dquote ""))))
              ++ String "}" "")))).

Definition sample_body_flat : string :=
  String JSString.dquote ("a" ++ String JSString.dquote (String ":" (String "1" ""))).

(** [handleFileAdded] *)
Definition handleFileAdded (newFiles : list UploadedFile) (s : State) : State :=
  setUploadedFiles (uploadedFiles s ++ newFiles)%list s.

(** [token] is truthy: there is one, and it is not the empty string. *)
Definition has_token (v : View) : bool :=
  match token v with
  | Some (String _ _) => true
  | _ => false
  end.

(** The send goes through: there is a text or a file, no turn is in
    flight, and there is a token. *)
Definition can_send (v : View) (s : State) : bool :=
  negb (blank (inputValue s) && (List.length (uploadedFiles s) =? 0)%nat)
  && negb (isLoading s)
  && has_token v.

(** A parsed chunk whose [type] can be read and is none of [reasoning],
    [content] and [metadata]. *)
Definition unrecognized (parsedChunk : JS.Value) : bool :=
  match JS.get parsedChunk "type" with
  | Normal ty =>
      negb (JS.strict_eq_string ty "reasoning"
            || JS.strict_eq_string ty "content"
            || JS.strict_eq_string ty "metadata")
  | Throw _ => false
  end.

(** The number of messages with [isStreaming] true. *)
Definition count_streaming (msgs : list Message) : nat :=
  List.length (filter (fun msg => truthy (isStreaming msg)) msgs).

(** What a turn with the assistant message [i] may do to the state, step
    by step: patch the messages with the id [i] without setting
    [isStreaming], run the updater of the cancellation, show a toast, set
    the loading flag, set the abort controller. *)
Inductive benign (i : string) (s : State) : State -> Prop :=
| benign_same : benign i s s
| benign_patch (s' : State) (fields : Partial) :
    benign i s s' -> p_isStreaming fields <> Some true ->
    benign i s (setMessages (Patch i fields) s')
| benign_cancel (s' : State) :
    benign i s s' -> benign i s (setMessages CancelLast s')
| benign_toast (s' : State) (t : Toast) :
    benign i s s' -> benign i s (toast t s')
| benign_loading (s' : State) (b : bool) :
    benign i s s' -> benign i s (setIsLoading b s')
| benign_controller (s' : State) (r : option AbortController) :
    benign i s s' -> benign i s (set_abortControllerRef r s').

(** The turn [t] has done to [s] only what is [benign], and its
    assistant message is [i]. *)
Definition turn_benign (i : string) (s : State) (t : Turn) : Prop :=
  benign i s (state_of t)
  /\ match t with
     | Suspended _ l _ => aiMessageId l = i
     | Returned _ => True
     end.

(** Closes a goal [benign] over a chain of such steps. *)
Ltac benign_steps :=
  repeat first
    [ assumption
    | apply benign_controller
    | apply benign_loading
    | apply benign_toast
    | apply benign_cancel
    | apply benign_patch; [|simpl; discriminate] ].

(** The text of two events of a type the dispatch does not know. *)
Definition unknown_stream : string := wire "ping" "x" ++ "{}".

(** [needle] and [hay] differ at a position both have. *)
Fixpoint mismatch (needle hay : string) : bool :=
  match needle, hay with
  | String a needle', String b hay' =>
      if (a =? b)%char then mismatch needle' hay' else true
  | _, _ => false
  end.

(** No occurrence of [needle] starts inside [hay], not even one that
    would run over its end. *)
Fixpoint clear_of (hay needle : string) : bool :=
  match hay with
  | EmptyString => true
  | String _ hay' => mismatch needle hay && clear_of hay' needle
  end.

(** The toasts after the text of a response that is not ok has come. *)
Definition toasts_after_text
           (JSON_parse : string -> Completion JS.Value)
           (ToString : JS.Value -> Completion string)
           (status : Z) (errorText : string) (l : Locals) (s : State) : list Toast :=
  toasts (state_of (step JSON_parse ToString (Suspended (AwaitText status) l s)
                         (Text errorText))).

Definition error_toast (description : string) : Toast :=
  mkToast "Error" description (Some "destructive").

(** A suspended turn is streaming into the last message, the only one
    that streams; once the turn has returned, no message streams. *)
Definition spinner (t : Turn) : Prop :=
  match t with
  | Suspended _ l s =>
      streaming l s /\ count_streaming (removelast (messages s)) = 0
  | Returned s => count_streaming (messages s) = 0
  end.

(** The event is no rejection with an [AbortError]: the abort of
    [handleCancelRequest] is part of the event [Cancel]. *)
Definition no_stray_abort (e : Event) : bool :=
  match e with
  | Rejects error => negb (is_AbortError error)
  | _ => true
  end.

(** A transcript of two finished messages. *)
Definition sample_transcript : list Message :=
  [mkMessage "1" "hi" user 1 None None None JS.Undefined;
   mkMessage "2" "hello" assistant 2 (Some false) None (Some true) JS.Undefined].

(** A text without a brace, a double quote or a backslash, as the white
    space between the objects of a stream. *)
Fixpoint plain (s : string) : bool :=
  match s with
  | EmptyString => true
  | String c s' =>
      negb ((c =? "{")%char || (c =? "}")%char
            || (c =? JSString.dquote)%char || (c =? "\")%char)
      && plain s'
  end.

(** An object of a stream with the text that comes before it, given by
    that text and the text between its braces; it is as the scanner
    reads it when that text is plain and the body well nested. *)
Definition item (p : string * string) : string := fst p ++ object (snd p).


(** The text after the opening double quote of a string literal that is
    not closed; it may end on a backslash. *)
Inductive OpenString : string -> Prop :=
| os_body (w : string) : StringBody w -> OpenString w
| os_backslash (w : string) : StringBody w -> OpenString (w ++ "\").

(** The text after the opening brace of an object that is not closed: it
    ends at this level, inside a string literal, or inside an object
    nested at any depth. *)
Inductive OpenBody : string -> Prop :=
| ob_here (x : string) : WellNested x -> OpenBody x
| ob_string (x w : string) :
    WellNested x -> OpenString w -> OpenBody (x ++ String JSString.dquote w)
| ob_object (x y : string) :
    WellNested x -> OpenBody y -> OpenBody (x ++ String "{" y).




Definition line_feed : string := String "010" "".

(** A turn of a reasoning model that has got to its request, and its
    state: the transcript holds the user's message and the assistant
    message. *)
Definition sample_started : State :=
  state_of (handleSendMessage (sample_view true) sample_clock sample_state).

(** ** Strings *)

Module StringFacts.

Import JSString.

Lemma append_nil_r (s : string) : s ++ "" = s.
Proof. induction s as [|c s IH]; simpl; congruence. Qed.

Lemma append_assoc (a b c : string) : (a ++ b) ++ c = a ++ b ++ c.
Proof. induction a as [|x a IH]; simpl; congruence. Qed.

Lemma length_append (a b : string) :
  String.length (a ++ b) = String.length a + String.length b.
Proof. induction a as [|x a IH]; simpl; congruence. Qed.

Lemma substring_take_drop (n m : nat) (s : string) :
  String.substring n m s = take m (drop n s).
Proof.
  revert n m; induction s as [|c s IH]; intros [|n] [|m]; simpl; try reflexivity.
  - rewrite (IH 0 m). destruct s; reflexivity.
  - apply IH.
  - apply IH.
Qed.

Lemma drop_nil (n : nat) : drop n "" = "".
Proof. destruct n; reflexivity. Qed.

Lemma take_nil (n : nat) : take n "" = "".
Proof. destruct n; reflexivity. Qed.

Lemma drop_app_length (a b : string) (n : nat) :
  drop (n + String.length a) (a ++ b) = drop n b.
Proof.
  induction a as [|x a IH]; simpl.
  - now rewrite Nat.add_0_r.
  - now rewrite Nat.add_succ_r.
Qed.

Lemma drop_app_le (a b : string) (n : nat) :
  n <= String.length a -> drop n (a ++ b) = drop n a ++ b.
Proof.
  revert n; induction a as [|x a IH]; intros [|n] H; simpl in *; try reflexivity; try lia.
  apply IH; lia.
Qed.

Lemma take_app_le (a b : string) (n : nat) :
  n <= String.length a -> take n (a ++ b) = take n a.
Proof.
  revert n; induction a as [|x a IH]; intros [|n] H; simpl in *; try reflexivity; try lia.
  f_equal; apply IH; lia.
Qed.

Lemma length_drop (n : nat) (s : string) :
  String.length (drop n s) = String.length s - n.
Proof. revert n; induction s as [|c s IH]; intros [|n]; simpl; auto. Qed.

Lemma length_take (n : nat) (s : string) :
  String.length (take n s) = Nat.min n (String.length s).
Proof. revert n; induction s as [|c s IH]; intros [|n]; simpl; auto. Qed.

Lemma take_all (n : nat) (s : string) : String.length s <= n -> take n s = s.
Proof.
  revert n; induction s as [|c s IH]; intros [|n] H; simpl in *; try reflexivity; try lia.
  f_equal; apply IH; lia.
Qed.

Lemma take_drop (n : nat) (s : string) : take n s ++ drop n s = s.
Proof. revert n; induction s as [|c s IH]; intros [|n]; simpl; try reflexivity. now rewrite IH. Qed.

Lemma take_succ (n : nat) (s : string) :
  n < String.length s ->
  exists char, take (S n) s = take n s ++ String char "" /\ drop n s = String char (drop (S n) s).
Proof.
  revert n; induction s as [|c s IH]; intros n H; simpl in H; [lia|].
  destruct n as [|n].
  - exists c. split; [destruct s|]; reflexivity.
  - destruct (IH n) as [char [E1 E2]]; [lia|].
    exists char. split; [|exact E2].
    change (take (S (S n)) (String c s)) with (String c (take (S n) s)).
    now rewrite E1.
Qed.

(** [substring2] is blind to a prefix once the indices are shifted. *)
Lemma substring2_shift (pre s : string) (a b : nat) :
  substring2 (pre ++ s) (a + String.length pre) (b + String.length pre) = substring2 s a b.
Proof.
  unfold substring2. rewrite !substring_take_drop.
  replace (Nat.min (a + String.length pre) (b + String.length pre))
    with (Nat.min a b + String.length pre) by lia.
  rewrite drop_app_length. f_equal. lia.
Qed.

(** [substring2] is blind to what follows the larger index. *)
Lemma substring2_ext (s x : string) (a b : nat) :
  a <= String.length s -> b <= String.length s ->
  substring2 (s ++ x) a b = substring2 s a b.
Proof.
  intros Ha Hb. unfold substring2. rewrite !substring_take_drop.
  rewrite drop_app_le by lia. apply take_app_le. rewrite length_drop. lia.
Qed.

Lemma substring1_drop (s : string) (a : nat) : substring1 s a = drop a s.
Proof.
  unfold substring1, substring2. rewrite substring_take_drop.
  destruct (Nat.le_gt_cases a (String.length s)) as [H|H].
  - replace (Nat.min a (String.length s)) with a by lia.
    apply take_all. rewrite length_drop. lia.
  - replace (Nat.min a (String.length s)) with (String.length s) by lia.
    assert (E : forall n, String.length s <= n -> drop n s = "").
    { clear. induction s as [|c s IH]; intros [|n] Hn; simpl in *; try reflexivity; try lia.
      apply IH; lia. }
    rewrite !E by lia. apply take_nil.
Qed.

Lemma concat_cons (a : string) (l : list string) : concat (a :: l) = a ++ concat l.
Proof.
  unfold concat. destruct l as [|b l]; simpl; [now rewrite append_nil_r | reflexivity].
Qed.

End StringFacts.

(** ** The tokenizer: what the loop computes *)

Section ScanFacts.

Import JSString StringFacts.

Context {A : Type}.
Variable JSON_parse : string -> Completion A.


Lemma body_advance (remaining : string) (i : nat) (char : ascii) (c : Cursor A) :
  body JSON_parse remaining i char c = Normal (advance JSON_parse remaining i char c).
Proof.
  unfold body, advance.
  repeat match goal with
         | |- context [if ?b then _ else _] => destruct b; try reflexivity
         end.
  cbv zeta. destruct (JSON_parse _); reflexivity.
Qed.

Lemma loop_sweep (remaining rest : string) :
  forall (i : nat) (c : Cursor A),
    loop JSON_parse remaining rest i c = Normal (sweep JSON_parse remaining rest i c).
Proof.
  induction rest as [|char rest IH]; intros i c; simpl; [reflexivity|].
  rewrite body_advance. simpl. apply IH.
Qed.

Lemma parseJSONStream_sweep (buffer : string) :
  parseJSONStream JSON_parse buffer =
  let c := sweep JSON_parse buffer buffer 0 init in
  Normal (mkTokens (parsed c) (drop (start c) buffer) (console c)).
Proof.
  unfold parseJSONStream. rewrite loop_sweep. simpl.
  now rewrite substring1_drop.
Qed.

Lemma sweep_app (remaining a b : string) :
  forall (i : nat) (c : Cursor A),
    sweep JSON_parse remaining (a ++ b) i c
    = sweep JSON_parse remaining b (i + String.length a) (sweep JSON_parse remaining a i c).
Proof.
  induction a as [|char a IH]; intros i c; simpl.
  - now rewrite Nat.add_0_r.
  - rewrite IH. f_equal. lia.
Qed.

(** An iteration either cuts a candidate or leaves [start] and the
    output alone. *)
Lemma advance_cases (remaining : string) (i : nat) (char : ascii) (c : Cursor A) :
  let c' := advance JSON_parse remaining i char c in
  (c' = at_boundary c' /\ start c' = i + 1)
  \/ (start c' = start c /\ parsed c' = parsed c /\ console c' = console c).
Proof.
  unfold advance.
  destruct (escaped c) eqn:Ee; [right; auto|].
  destruct (char =? "\")%char; [right; auto|].
  destruct (char =? dquote)%char; [right; auto|].
  destruct (inString c) eqn:Es; [right; auto|].
  destruct (char =? "{")%char; [right; auto|].
  destruct (char =? "}")%char; [|right; auto].
  cbv zeta. simpl.
  destruct (depth c - 1 =? 0)%Z eqn:Ed; [|right; auto].
  left. apply Z.eqb_eq in Ed.
  destruct (JSON_parse _);
    unfold at_boundary, set_start, push, warn, set_depth; simpl;
    rewrite Ee, Es, Ed; split; reflexivity.
Qed.

(** *** Shifting the indices *)

Lemma advance_shift (pre s : string) (p : list A) (w : list string)
      (i : nat) (char : ascii) (c c' : Cursor A) :
  shifted (String.length pre) p w c c' ->
  shifted (String.length pre) p w
          (advance JSON_parse (pre ++ s) (i + String.length pre) char c)
          (advance JSON_parse s i char c').
Proof.
  intros (Hd & Hs & He & Hst & Hp & Hw).
  destruct c as [pc wc dc sc ic ec], c' as [pc' wc' dc' sc' ic' ec'].
  simpl in Hd, Hs, He, Hst, Hp, Hw. subst.
  unfold advance, shifted. simpl.
  destruct ec'; [simpl; auto 10|].
  destruct (char =? "\")%char; [simpl; auto 10|].
  destruct (char =? dquote)%char; [simpl; auto 10|].
  destruct ic'; [simpl; auto 10|].
  destruct (char =? "{")%char; [simpl; auto 10|].
  destruct (char =? "}")%char; [|simpl; auto 10].
  destruct (dc' - 1 =? 0)%Z; [|simpl; auto 10].
  replace (i + String.length pre + 1) with (i + 1 + String.length pre) by lia.
  rewrite substring2_shift.
  destruct (JSON_parse _); simpl; rewrite <- ?app_assoc; auto 10.
Qed.

Lemma sweep_shift (pre s rest : string) (p : list A) (w : list string) :
  forall (i : nat) (c c' : Cursor A),
    shifted (String.length pre) p w c c' ->
    shifted (String.length pre) p w
            (sweep JSON_parse (pre ++ s) rest (i + String.length pre) c)
            (sweep JSON_parse s rest i c').
Proof.
  induction rest as [|char rest IH]; intros i c c' H; simpl; [exact H|].
  apply (IH (S i)). now apply advance_shift.
Qed.

(** *** Extending the text scanned *)

Lemma advance_ext (s x : string) (i : nat) (char : ascii) (c : Cursor A) :
  start c <= i -> i < String.length s ->
  advance JSON_parse (s ++ x) i char c = advance JSON_parse s i char c
  /\ start (advance JSON_parse s i char c) <= S i.
Proof.
  intros Hst Hi. unfold advance.
  destruct (escaped c); [split; simpl; auto|].
  destruct (char =? "\")%char; [split; simpl; auto|].
  destruct (char =? dquote)%char; [split; simpl; auto|].
  destruct (inString c); [split; simpl; auto|].
  destruct (char =? "{")%char; [split; simpl; auto|].
  destruct (char =? "}")%char; [|split; simpl; auto].
  cbv zeta. simpl.
  destruct (depth c - 1 =? 0)%Z; [|split; simpl; auto].
  rewrite substring2_ext by lia.
  split; [reflexivity|]. destruct (JSON_parse _); simpl; lia.
Qed.

Lemma sweep_ext (s x rest : string) :
  forall (i : nat) (c : Cursor A),
    start c <= i -> i + String.length rest <= String.length s ->
    sweep JSON_parse (s ++ x) rest i c = sweep JSON_parse s rest i c.
Proof.
  induction rest as [|char rest IH]; intros i c Hst Hi; simpl in *; [reflexivity|].
  destruct (advance_ext s x i char c) as [E Hs]; [lia|lia|].
  rewrite E. apply IH; lia.
Qed.

(** *** The remainder scanned again *)

Lemma anchored_init (remaining : string) : anchored JSON_parse remaining "" init.
Proof. split; simpl; [lia | reflexivity]. Qed.

Lemma anchored_advance (remaining done : string) (char : ascii) (c : Cursor A) :
  anchored JSON_parse remaining done c ->
  anchored JSON_parse remaining (done ++ String char "")
           (advance JSON_parse remaining (String.length done) char c).
Proof.
  intros [Hle Hc].
  destruct (advance_cases remaining (String.length done) char c) as [[Hb Hs]|(Hs & Hp & Hw)].
  - unfold anchored. rewrite Hs. split; [rewrite length_append; simpl; lia|].
    replace (String.length done + 1) with (1 + String.length done) at 1 by lia.
    rewrite drop_app_length. simpl. symmetry. exact Hb.
  - unfold anchored. rewrite Hs. split; [rewrite length_append; lia|].
    rewrite drop_app_le by exact Hle.
    rewrite sweep_app. rewrite length_drop.
    replace (at_boundary (advance JSON_parse remaining (String.length done) char c))
      with (at_boundary c) by (unfold at_boundary; now rewrite Hs, Hp, Hw).
    rewrite Hc. simpl. f_equal. lia.
Qed.

Lemma anchored_sweep (remaining rest : string) :
  forall (done : string) (c : Cursor A),
    anchored JSON_parse remaining done c ->
    anchored JSON_parse remaining (done ++ rest)
             (sweep JSON_parse remaining rest (String.length done) c).
Proof.
  induction rest as [|char rest IH]; intros done c H; simpl.
  - now rewrite append_nil_r.
  - apply (anchored_advance _ _ char) in H.
    apply IH in H. rewrite length_append in H. simpl in H.
    rewrite Nat.add_1_r in H. now rewrite append_assoc in H.
Qed.

Lemma start_le_length (buffer : string) :
  start (sweep JSON_parse buffer buffer 0 init) <= String.length buffer.
Proof. apply (anchored_sweep buffer buffer "" init (anchored_init buffer)). Qed.

(** Scanning the remainder alone ends in the cursor the whole buffer
    ended in, moved back to index 0 and with no output. *)
Lemma remainder_rescanned (a : string) :
  let c := sweep JSON_parse a a 0 init in
  let r := drop (start c) a in
  shifted (start c) (parsed c) (console c) c (sweep JSON_parse r r 0 init).
Proof.
  intros c r.
  destruct (anchored_sweep a a "" init (anchored_init a)) as [Hle Hc].
  simpl in Hle, Hc. fold c in Hle, Hc.
  assert (Hlen : String.length (take (start c) a) = start c)
    by (rewrite length_take; lia).
  pose proof (sweep_shift (take (start c) a) r r (parsed c) (console c) 0
                          (at_boundary c) init) as H.
  rewrite Hlen in H. unfold r in H at 1. rewrite take_drop in H.
  simpl in H. fold r in Hc. rewrite Hc in H.
  apply H. unfold shifted, at_boundary; simpl. rewrite !app_nil_r. auto 10.
Qed.

(** *** One more chunk *)

Lemma sweep_chunk (a b : string) :
  let c := sweep JSON_parse a a 0 init in
  let r := drop (start c) a in
  shifted (start c) (parsed c) (console c)
          (sweep JSON_parse (a ++ b) (a ++ b) 0 init)
          (sweep JSON_parse (r ++ b) (r ++ b) 0 init).
Proof.
  intros c r.
  pose proof (start_le_length a) as Hle. fold c in Hle.
  assert (Hlen : String.length (take (start c) a) = start c)
    by (rewrite length_take; lia).
  rewrite !sweep_app. simpl.
  rewrite (sweep_ext a b a 0 init) by (simpl; lia).
  rewrite (sweep_ext r b r 0 init) by (simpl; lia).
  fold c.
  pose proof (sweep_shift (take (start c) a) (r ++ b) b (parsed c) (console c)
                          (String.length r) c (sweep JSON_parse r r 0 init)) as H.
  rewrite Hlen in H.
  rewrite <- append_assoc in H. unfold r in H at 1. rewrite take_drop in H.
  replace (String.length r + start c) with (String.length a) in H.
  2:{ unfold r. rewrite length_drop. lia. }
  apply H. apply remainder_rescanned.
Qed.

Lemma parseJSONStream_chunk (a b : string) :
  exists ta tb,
    parseJSONStream JSON_parse a = Normal ta
    /\ parseJSONStream JSON_parse (tk_remaining ta ++ b) = Normal tb
    /\ parseJSONStream JSON_parse (a ++ b)
       = Normal (mkTokens (tk_parsed ta ++ tk_parsed tb) (tk_remaining tb)
                          (tk_console ta ++ tk_console tb)).
Proof.
  set (c := sweep JSON_parse a a 0 init).
  set (r := drop (start c) a).
  set (c' := sweep JSON_parse (r ++ b) (r ++ b) 0 init).
  exists (mkTokens (parsed c) r (console c)),
         (mkTokens (parsed c') (drop (start c') (r ++ b)) (console c')).
  split; [apply parseJSONStream_sweep|].
  split; [apply parseJSONStream_sweep|].
  rewrite parseJSONStream_sweep. cbv zeta. simpl.
  destruct (sweep_chunk a b) as (_ & _ & _ & Hst & Hp & Hw).
  fold c r c' in Hst, Hp, Hw.
  pose proof (start_le_length a) as Hle. fold c in Hle.
  rewrite Hp, Hw, Hst. do 2 f_equal.
  rewrite <- (take_drop (start c) a) at 1. fold r.
  rewrite append_assoc.
  replace (start c) with (String.length (take (start c) a)) at 1
    by (rewrite length_take; lia).
  now rewrite drop_app_length.
Qed.

End ScanFacts.

Lemma cut_sweep (buffer : string) :
  cut buffer
  = let c := sweep accept buffer buffer 0 init in
    mkTokens (parsed c) (JSString.drop (start c) buffer) (console c).
Proof. unfold cut. now rewrite parseJSONStream_sweep. Qed.

Lemma cursor_at_sweep (text : string) (m : nat) :
  cursor_at text m = sweep accept text (JSString.take m text) 0 init.
Proof. unfold cursor_at. now rewrite loop_sweep. Qed.


(** ** The tokenizer: chunking, malformed candidates, stray characters *)

Section TokenizerTheorems.

Import JSString StringFacts.

Context {A : Type}.
Variable JSON_parse : string -> Completion A.

Lemma parseJSONStream_empty :
  parseJSONStream JSON_parse "" = Normal (mkTokens [] "" []).
Proof. reflexivity. Qed.

(** The objects of one call on [text ++ chunks] are those of the call on
    [text] followed by those the read loop gets from the chunks, started
    with the remainder of [text]. *)
Lemma feed_after (chunks : list string) :
  forall text : string,
  exists t0 tk r,
    parseJSONStream JSON_parse text = Normal t0
    /\ parseJSONStream JSON_parse (text ++ concat chunks) = Normal tk
    /\ feed JSON_parse chunks (tk_remaining t0) = Normal r
    /\ tk_parsed tk = (tk_parsed t0 ++ fst r)%list
    /\ tk_remaining tk = snd r.
Proof.
  induction chunks as [|chunk chunks IH]; intros text.
  - rewrite append_nil_r. rewrite parseJSONStream_sweep. cbv zeta.
    eexists. eexists. eexists. split; [reflexivity|]. split; [reflexivity|].
    simpl. split; [reflexivity|]. now rewrite app_nil_r.
  - rewrite concat_cons, <- append_assoc.
    destruct (parseJSONStream_chunk JSON_parse text chunk) as (ta & tb & Ha & Hb & Hab).
    destruct (IH (text ++ chunk)) as (t0 & tk & r & H0 & Hk & Hr & Hp & Hrem).
    rewrite Hab in H0. injection H0 as <-. simpl in Hr, Hp.
    exists ta, tk, ((tk_parsed tb ++ fst r)%list, snd r).
    split; [exact Ha|]. split; [exact Hk|].
    simpl. rewrite Hb. simpl. rewrite Hr. simpl.
    split; [reflexivity|]. split; [|exact Hrem].
    rewrite Hp. now rewrite app_assoc.
Qed.

Lemma feed_whole (chunks : list string) :
  exists tk,
    parseJSONStream JSON_parse (concat chunks) = Normal tk
    /\ feed JSON_parse chunks "" = Normal (tk_parsed tk, tk_remaining tk).
Proof.
  destruct (feed_after chunks "") as (t0 & tk & r & H0 & Hk & Hr & Hp & Hrem).
  rewrite parseJSONStream_empty in H0. injection H0 as <-.
  simpl in Hk, Hr, Hp. exists tk. split; [exact Hk|].
  rewrite Hr, Hp, Hrem. now destruct r.
Qed.

(** C1. Feeding the complete text in one call yields the same ordered
    list of parsed objects, and the same remainder, as feeding it chunk
    by chunk, each chunk appended to the remainder of the call before,
    however the text is split into chunks. *)
Theorem chunking_invariance (chunks : list string) :
  exists tk,
    parseJSONStream JSON_parse (concat chunks) = Normal tk
    /\ feed JSON_parse chunks "" = Normal (tk_parsed tk, tk_remaining tk).
Proof. exact (feed_whole chunks). Qed.

(** *** Candidates that do not parse *)

Lemma successes_snoc (l : list string) (jsonStr : string) :
  successes JSON_parse (l ++ [jsonStr])
  = (successes JSON_parse l
     ++ match JSON_parse jsonStr with Normal obj => [obj] | Throw _ => [] end)%list.
Proof. unfold successes. rewrite flat_map_app. simpl. now rewrite app_nil_r. Qed.

Lemma failures_snoc (l : list string) (jsonStr : string) :
  failures JSON_parse (l ++ [jsonStr])
  = (failures JSON_parse l
     ++ match JSON_parse jsonStr with Normal _ => [] | Throw _ => [jsonStr] end)%list.
Proof. unfold failures. rewrite filter_app. simpl. now destruct (JSON_parse jsonStr). Qed.

Lemma advance_mirrors (remaining : string) (i : nat) (char : ascii)
      (c : Cursor A) (c' : Cursor string) :
  mirrors JSON_parse c c' ->
  mirrors JSON_parse (advance JSON_parse remaining i char c)
          (advance accept remaining i char c').
Proof.
  intros (Hd & Hst & Hs & He & Hp & Hw & Hn).
  destruct c as [pc wc dc sc ic ec], c' as [pc' wc' dc' sc' ic' ec'].
  simpl in Hd, Hst, Hs, He, Hp, Hw, Hn. subst.
  unfold advance, mirrors. simpl.
  destruct ec'; [simpl; auto 10|].
  destruct (char =? "\")%char; [simpl; auto 10|].
  destruct (char =? dquote)%char; [simpl; auto 10|].
  destruct ic'; [simpl; auto 10|].
  destruct (char =? "{")%char; [simpl; auto 10|].
  destruct (char =? "}")%char; [|simpl; auto 10].
  destruct (dc' - 1 =? 0)%Z; [|simpl; auto 10].
  destruct (JSON_parse (substring2 remaining sc' (i + 1))) eqn:E; simpl;
    rewrite successes_snoc, failures_snoc, E, ?app_nil_r; auto 10.
Qed.

Lemma sweep_mirrors (remaining rest : string) :
  forall (i : nat) (c : Cursor A) (c' : Cursor string),
    mirrors JSON_parse c c' ->
    mirrors JSON_parse (sweep JSON_parse remaining rest i c)
            (sweep accept remaining rest i c').
Proof.
  induction rest as [|char rest IH]; intros i c c' H; simpl; [exact H|].
  apply IH. now apply advance_mirrors.
Qed.

Lemma parseJSONStream_candidates (buffer : string) :
  parseJSONStream JSON_parse buffer
  = Normal (mkTokens (successes JSON_parse (candidates buffer))
                     (tk_remaining (cut buffer))
                     (failures JSON_parse (candidates buffer))).
Proof.
  rewrite parseJSONStream_sweep. cbv zeta. unfold candidates. rewrite cut_sweep. simpl.
  destruct (sweep_mirrors buffer buffer 0 init init) as (_ & Hst & _ & _ & Hp & Hw & _).
  { unfold mirrors. simpl. auto 10. }
  now rewrite Hp, Hw, Hst.
Qed.

(** C8, as the code has it.  A backslash that is not itself escaped sets
    the escape-pending flag whether or not the scanner is inside a
    string, and leaves the depth, the string flag and the output as they
    are; the character after it is then consumed without being looked
    at. *)
Theorem backslash_sets_escaped_anywhere
        (remaining : string) (i : nat) (char : ascii)
        (p : list A) (w : list string) (d : Z) (s : nat) (inStr : bool) :
  body JSON_parse remaining i "\" (mkCursor p w d s inStr false)
  = Normal (mkCursor p w d s inStr true)
  /\ body JSON_parse remaining (S i) char (mkCursor p w d s inStr true)
     = Normal (mkCursor p w d s inStr false).
Proof. split; reflexivity. Qed.

End TokenizerTheorems.

(** A sample: the middle candidate fails and is logged; the objects on
    either side of it are returned. *)
Example malformed_candidate_sample :
  candidates ("{}{bad}{}") = ["{}"; "{bad}"; "{}"]
  /\ parseJSONStream JSON.parse ("{}{bad}{}")
     = Normal (mkTokens [JS.Object []; JS.Object []] "" ["{bad}"]).
Proof. split; reflexivity. Qed.

(** C8, as stated, fails: outside a string, with no escape pending, a
    backslash changes the cursor, and the output with it.  The brace
    after the backslash is not counted, so [\{}] is kept whole, where
    [{}] is cut and parsed. *)
Lemma backslash_outside_string_changes_state :
  inString (@init JS.Value) = false
  /\ escaped (@init JS.Value) = false
  /\ body JSON.parse "\" 0 "\" init <> Normal init
  /\ parseJSONStream JSON.parse "\{}" = Normal (mkTokens [] "\{}" [])
  /\ parseJSONStream JSON.parse "{}" = Normal (mkTokens [JS.Object []] "" []).
Proof.
  split; [reflexivity|]. split; [reflexivity|]. split; [discriminate|].
  split; reflexivity.
Qed.

(** ** A closing brace too many *)

Section StrayBrace.

Import JSString StringFacts.

(** In the run that accepts every candidate no warning is logged, and
    the output is empty only as long as nothing was cut. *)
Lemma advance_accept_fresh (remaining : string) (i : nat) (char : ascii) (c : Cursor string) :
  console c = [] /\ (parsed c = [] -> start c = 0) ->
  let c' := advance accept remaining i char c in
  console c' = [] /\ (parsed c' = [] -> start c' = 0).
Proof.
  intros [Hw Hp]. unfold advance.
  destruct (escaped c); [simpl; auto|].
  destruct (char =? "\")%char; [simpl; auto|].
  destruct (char =? dquote)%char; [simpl; auto|].
  destruct (inString c); [simpl; auto|].
  destruct (char =? "{")%char; [simpl; auto|].
  destruct (char =? "}")%char; [|simpl; auto].
  cbv zeta. simpl.
  destruct (depth c - 1 =? 0)%Z; [|simpl; auto].
  simpl. split; [exact Hw|]. intros H. now destruct (parsed c).
Qed.

Lemma sweep_accept_fresh (remaining rest : string) :
  forall (i : nat) (c : Cursor string),
    console c = [] /\ (parsed c = [] -> start c = 0) ->
    let c' := sweep accept remaining rest i c in
    console c' = [] /\ (parsed c' = [] -> start c' = 0).
Proof.
  induction rest as [|char rest IH]; intros i c H; simpl; [exact H|].
  apply IH. now apply advance_accept_fresh.
Qed.

(** No candidate is cut by an iteration that starts with the counter at
    zero or below. *)
Lemma advance_down {A : Type} (JSON_parse : string -> Completion A)
      (remaining : string) (i : nat) (char : ascii) (c : Cursor A) :
  (depth c <= 0)%Z ->
  let c' := advance JSON_parse remaining i char c in
  parsed c' = parsed c /\ start c' = start c /\ console c' = console c.
Proof.
  intros Hd. unfold advance.
  destruct (escaped c); [simpl; auto|].
  destruct (char =? "\")%char; [simpl; auto|].
  destruct (char =? dquote)%char; [simpl; auto|].
  destruct (inString c); [simpl; auto|].
  destruct (char =? "{")%char; [simpl; auto|].
  destruct (char =? "}")%char; [|simpl; auto].
  cbv zeta. simpl.
  destruct (Z.eqb_spec (depth c - 1) 0) as [E|E]; [lia|]. simpl. auto.
Qed.

Lemma cursor_at_succ (text : string) (m : nat) :
  m < String.length text ->
  exists char, cursor_at text (S m) = advance accept text m char (cursor_at text m).
Proof.
  intros H. destruct (take_succ m text H) as (char & E & _).
  exists char. rewrite !cursor_at_sweep, E, sweep_app. simpl.
  rewrite length_take. do 2 f_equal. lia.
Qed.

Lemma cursor_at_end (text : string) (m : nat) :
  String.length text <= m ->
  cut text = mkTokens (parsed (cursor_at text m))
                      (drop (start (cursor_at text m)) text)
                      (console (cursor_at text m)).
Proof.
  intros H. rewrite cut_sweep, cursor_at_sweep, take_all by exact H. reflexivity.
Qed.

Lemma stays_down_spec (text : string) (n m : nat) :
  stays_down text n = true -> n <= m <= String.length text ->
  (depth (cursor_at text m) <= 0)%Z.
Proof.
  unfold stays_down. intros H Hm. rewrite forallb_forall in H.
  apply Z.leb_le. apply H. apply in_seq. lia.
Qed.

Lemma nothing_cut_while_down (text : string) (n : nat) :
  parsed (cursor_at text n) = [] ->
  stays_down text n = true ->
  cut text = mkTokens [] text [].
Proof.
  intros Hp Hdown.
  assert (Hfresh : forall m, console (cursor_at text m) = []
                             /\ (parsed (cursor_at text m) = [] -> start (cursor_at text m) = 0)).
  { intros m. rewrite cursor_at_sweep. apply sweep_accept_fresh. simpl. auto. }
  destruct (Nat.le_gt_cases (String.length text) n) as [Hn|Hn].
  - rewrite (cursor_at_end text n Hn). destruct (Hfresh n) as [Hw Hs].
    now rewrite Hp, Hw, (Hs Hp).
  - assert (Hk : forall k, n + k <= String.length text -> parsed (cursor_at text (n + k)) = []).
    { induction k as [|k IH]; intros Hle.
      - now rewrite Nat.add_0_r.
      - rewrite Nat.add_succ_r.
        destruct (cursor_at_succ text (n + k)) as [char E]; [lia|].
        rewrite E.
        destruct (advance_down accept text (n + k) char (cursor_at text (n + k))) as (Hq & _).
        { apply (stays_down_spec text n); [exact Hdown | lia]. }
        rewrite Hq. apply IH. lia. }
    rewrite (cursor_at_end text (String.length text) (Nat.le_refl _)).
    specialize (Hk (String.length text - n)).
    replace (n + (String.length text - n)) with (String.length text) in Hk by lia.
    destruct (Hfresh (String.length text)) as [Hw Hs].
    rewrite Hk, Hw, (Hs (Hk ltac:(lia))) by lia. reflexivity.
Qed.

(** C10, as the code has it.  If a closing brace has driven the counter
    below zero at index [n] before any candidate was cut, and the counter
    stays at zero or below from there to the end of the stream, then no
    object is emitted: one call on the whole text returns an empty list
    and the whole text as remainder, and so does the read loop however
    the text arrives in chunks. *)
Theorem stray_brace_blocks_while_down
        {A : Type} (JSON_parse : string -> Completion A)
        (text : string) (n : nat) (chunks : list string) :
  parsed (cursor_at text n) = [] ->
  (depth (cursor_at text n) < 0)%Z ->
  stays_down text n = true ->
  concat chunks = text ->
  parseJSONStream JSON_parse text = Normal (mkTokens [] text [])
  /\ feed JSON_parse chunks "" = Normal ([], text).
Proof.
  intros Hp _ Hdown Hc.
  assert (E : parseJSONStream JSON_parse text = Normal (mkTokens [] text [])).
  { rewrite parseJSONStream_candidates. unfold candidates.
    now rewrite (nothing_cut_while_down text n Hp Hdown). }
  split; [exact E|].
  destruct (feed_whole JSON_parse chunks) as (tk & Hk & Hf).
  rewrite Hc, E in Hk. injection Hk as <-. exact Hf.
Qed.

End StrayBrace.

(** C10 at a sample: [}{}] arriving as [}{] and [}]. *)
Lemma stray_brace_blocks_sample :
  parseJSONStream JSON.parse "}{}" = Normal (mkTokens [] "}{}" [])
  /\ feed JSON.parse ["}{"; "}"] "" = Normal ([], "}{}").
Proof.
  apply (stray_brace_blocks_while_down JSON.parse "}{}" 1 ["}{"; "}"]).
  - reflexivity.
  - vm_compute. reflexivity.
  - reflexivity.
  - reflexivity.
Defined.

(** C10, as stated, fails: in [}{{}{}] the first character drives the
    counter to -1 before anything was cut, yet the counter comes back to
    zero on the inner closing brace, where a candidate is cut (and fails
    to parse), and the object after it is emitted with nothing left in
    the buffer; so it is when the text arrives in two chunks. *)
Lemma stray_brace_resynchronizes :
  depth (cursor_at "}{{}{}" 1) = (-1)%Z
  /\ parsed (cursor_at "}{{}{}" 1) = []
  /\ parseJSONStream JSON.parse "}{{}{}"
     = Normal (mkTokens [JS.Object []] "" ["}{{}"])
  /\ feed JSON.parse ["}{{"; "}{}"] "" = Normal ([JS.Object []], "").
Proof. repeat split; reflexivity. Qed.

(** ** Dispatch of decoded events *)

Section DispatchFacts.

Import JSString StringFacts.

Variable ToString : JS.Value -> Completion string.

Lemma dispatch_decoded (e : StreamEvent) (m : Mem) :
  dispatch ToString (decoded e) m = (Normal tt, on_event e m).
Proof.
  destruct m as [[aiId model accC accR phase buf] s].
  destruct e as [text|text|usage]; [reflexivity | | destruct usage; reflexivity].
  destruct phase; reflexivity.
Qed.

Lemma for_of_decoded (events : list StreamEvent) :
  forall m : Mem,
    for_of (map decoded events) (dispatch ToString) m = (Normal tt, on_events events m).
Proof.
  induction events as [|e events IH]; intros m; simpl; [reflexivity|].
  unfold bindM. rewrite dispatch_decoded. apply IH.
Qed.

End DispatchFacts.

(** ** What a run of events leaves behind *)

Section EventFacts.

Import JSString StringFacts.

Lemma spread_no_fields (msg : Message) : spread msg no_fields = msg.
Proof. now destruct msg. Qed.

Lemma spread_merge (msg : Message) (f g : Partial) :
  spread (spread msg f) g = spread msg (merge f g).
Proof.
  destruct msg, f as [fc fs fr fk fm], g as [gc gs gr gk gm]. unfold spread, merge. simpl.
  destruct gc, gs, gr, gk, gm; reflexivity.
Qed.

Lemma apply_patch_no_fields (i : string) (msgs : list Message) :
  apply (Patch i no_fields) msgs = msgs.
Proof.
  simpl. rewrite <- (map_id msgs) at 2. apply map_ext. intros msg.
  rewrite spread_no_fields. now destruct (id msg =? i).
Qed.

Lemma apply_patch_patch (i : string) (f g : Partial) (msgs : list Message) :
  apply (Patch i g) (apply (Patch i f) msgs) = apply (Patch i (merge f g)) msgs.
Proof.
  simpl. rewrite map_map. apply map_ext. intros msg.
  destruct (id msg =? i) eqn:E.
  - change (id (spread msg f)) with (id msg). rewrite E. apply spread_merge.
  - now rewrite E.
Qed.

Lemma content_texts_none (events : list StreamEvent) :
  existsb is_content events = false -> content_texts events = [].
Proof.
  induction events as [|[text|text|usage] events IH]; simpl; intros H;
    try discriminate; auto.
Qed.

Lemma reasoning_texts_none (events : list StreamEvent) :
  existsb is_reasoning events = false -> reasoning_texts events = [].
Proof.
  induction events as [|[text|text|usage] events IH]; simpl; intros H;
    try discriminate; auto.
Qed.

Lemma on_events_cons (e : StreamEvent) (events : list StreamEvent) (m : Mem) :
  on_events (e :: events) m = on_events events (on_event e m).
Proof. reflexivity. Qed.

(** The locals after the events. *)
Lemma on_events_locals (events : list StreamEvent) :
  forall (l : Locals) (s : State),
    fst (on_events events (l, s))
    = mkLocals (aiMessageId l) (isReasoningModel l)
               (accumulatedContent l ++ concat (content_texts events))
               (accumulatedReasoning l ++ concat (reasoning_texts events))
               (isReasoningPhase l && negb (existsb is_content events))
               (buffer l).
Proof.
  induction events as [|e events IH]; intros [aiId model accC accR phase buf] s.
  - simpl. unfold concat. simpl. rewrite !append_nil_r. now rewrite andb_true_r.
  - rewrite on_events_cons.
    destruct e as [text|text|usage]; simpl on_event; rewrite IH; simpl;
      rewrite ?concat_cons, ?append_assoc; try reflexivity.
    now rewrite andb_false_r.
Qed.

(** The transcript after the events: one patch of the assistant message
    by the fields the events overwrite. *)
Lemma on_events_messages (events : list StreamEvent) :
  forall (l : Locals) (s : State),
    messages (snd (on_events events (l, s)))
    = apply (Patch (aiMessageId l) (net_fields l events)) (messages s).
Proof.
  induction events as [|e events IH]; intros [aiId model accC accR phase buf] s.
  - change (messages s
            = apply (Patch aiId (mkPartial None None None
                                   (if phase && false then Some true else None) None))
                    (messages s)).
    rewrite andb_false_r. symmetry. apply apply_patch_no_fields.
  - rewrite on_events_cons.
    destruct e as [text|text|usage]; simpl on_event; rewrite IH;
      cbn -[apply existsb is_content is_reasoning content_texts reasoning_texts last_usage concat].
    + rewrite apply_patch_patch. do 2 f_equal.
      unfold merge, net_fields; cbn -[concat];
        fold (content_texts events); fold (reasoning_texts events).
      rewrite concat_cons, append_assoc.
      destruct (existsb is_reasoning events) eqn:Er.
      * destruct (existsb is_content events), phase, (last_usage events); reflexivity.
      * rewrite (reasoning_texts_none events Er). unfold concat at 2. simpl.
        rewrite append_nil_r.
        destruct (existsb is_content events), phase, (last_usage events); reflexivity.
    + destruct phase; cbn [messages setMessages];
        rewrite !apply_patch_patch; do 2 f_equal;
        unfold merge, net_fields; cbn -[concat];
        fold (content_texts events); fold (reasoning_texts events);
        rewrite concat_cons, append_assoc;
        (destruct (existsb is_content events) eqn:Ec;
         [ destruct (existsb is_reasoning events), (last_usage events); reflexivity
         | rewrite (content_texts_none events Ec); unfold concat at 1; simpl;
           rewrite append_nil_r;
           destruct (existsb is_reasoning events), (last_usage events); reflexivity ]).
    + rewrite apply_patch_patch. do 2 f_equal.
      unfold merge, net_fields; cbn -[concat];
        fold (content_texts events); fold (reasoning_texts events).
      destruct (existsb is_content events), (existsb is_reasoning events), phase,
        (last_usage events); reflexivity.
Qed.

End EventFacts.

(** ** Reasoning and content, event by event *)

Section EventTheorems.

Import JSString StringFacts.

Variable ToString : JS.Value -> Completion string.

(** The updaters issued over a run of events: how many mark the
    reasoning complete, and which contents are written. *)
Lemma on_events_updates (events : list StreamEvent) :
  forall (l : Locals) (s : State),
  exists new,
    updates (snd (on_events events (l, s))) = (updates s ++ new)%list
    /\ List.length (filter marks_reasoning_complete new)
       = (if isReasoningPhase l && existsb is_content events then 1 else 0)
    /\ flat_map content_written new
       = cumulative (accumulatedContent l) (content_texts events).
Proof.
  induction events as [|e events IH]; intros [aiId model accC accR phase buf] s.
  - exists []. simpl. rewrite app_nil_r, andb_false_r. auto.
  - rewrite on_events_cons. destruct e as [text|text|usage]; simpl on_event.
    + edestruct IH as (new & Hu & Hn & Hc). rewrite Hu.
      exists (Patch aiId (reasoning_is (accR ++ text)) :: new).
      simpl. rewrite <- app_assoc. simpl. split; [reflexivity|]. split; [exact Hn | exact Hc].
    + edestruct IH as (new & Hu & Hn & Hc). rewrite Hu.
      simpl in Hn, Hc.
      exists ((if phase then [Patch aiId (isReasoningComplete_is true)] else [])
              ++ Patch aiId (content_is (accC ++ text)) :: new)%list.
      split; [destruct phase; simpl; rewrite <- !app_assoc; reflexivity|].
      rewrite filter_app, flat_map_app, length_app. simpl. rewrite Hn, Hc.
      destruct phase; simpl; auto.
    + edestruct IH as (new & Hu & Hn & Hc). rewrite Hu.
      exists (Patch aiId (metadata_is usage) :: new).
      simpl. rewrite <- app_assoc. simpl. split; [reflexivity|]. split; [exact Hn | exact Hc].
Qed.

Lemma in_apply_patch (i : string) (f : Partial) (msgs : list Message) (msg : Message) :
  In msg (apply (Patch i f) msgs) -> id msg = i ->
  exists old, In old msgs /\ id old = i /\ msg = spread old f.
Proof.
  simpl. rewrite in_map_iff. intros (old & E & Hin) Hid.
  exists old. destruct (id old =? i) eqn:Ei.
  - apply String.eqb_eq in Ei. auto.
  - subst msg. apply String.eqb_neq in Ei. contradiction.
Qed.

Lemma map_id_apply_patch (i : string) (f : Partial) (msgs : list Message) :
  map id (apply (Patch i f) msgs) = map id msgs.
Proof.
  simpl. rewrite map_map. apply map_ext. intros msg. now destruct (id msg =? i).
Qed.

(** C4. A reasoning event, in whatever phase and state of the turn it
    comes, before or after content events, overwrites the reasoning
    field of the assistant message and nothing else: the content of
    every message stays as it is, and so do the accumulated content and
    the phase.  From the reasoning phase, over a run of events the
    updater that marks the reasoning complete is issued exactly once if
    the run holds a content event, and not at all otherwise; after a
    content event the assistant message has [isReasoningComplete = true]
    and the turn has left the reasoning phase; without one, no content is
    written. *)
Theorem reasoning_phase_transition
        (l : Locals) (s : State) (text : string) (events : list StreamEvent) :
  (exists l1 s1,
      dispatch ToString (decoded (EvReasoning text)) (l, s) = (Normal tt, (l1, s1))
      /\ messages s1
         = map (fun msg =>
                  if (id msg =? aiMessageId l)%string
                  then mkMessage (id msg) (content msg) (role msg) (timestamp msg)
                         (isStreaming msg) (Some (accumulatedReasoning l ++ text))
                         (isReasoningComplete msg) (metadata msg)
                  else msg)
               (messages s)
      /\ map content (messages s1) = map content (messages s)
      /\ accumulatedContent l1 = accumulatedContent l
      /\ isReasoningPhase l1 = isReasoningPhase l)
  /\ (isReasoningPhase l = true ->
      exists l' s' new,
        for_of (map decoded events) (dispatch ToString) (l, s) = (Normal tt, (l', s'))
        /\ updates s' = (updates s ++ new)%list
        /\ List.length (filter marks_reasoning_complete new)
           = (if existsb is_content events then 1 else 0)
        /\ isReasoningPhase l' = negb (existsb is_content events)
        /\ (existsb is_content events = true ->
            forall msg, In msg (messages s') -> id msg = aiMessageId l ->
                        isReasoningComplete msg = Some true)
        /\ (existsb is_content events = false ->
            map content (messages s') = map content (messages s))).
Proof.
  split.
  - rewrite dispatch_decoded.
    destruct l as [aiId model accC accR phase buf].
    eexists. eexists. split; [reflexivity|]. simpl.
    split; [reflexivity|]. split; [|auto].
    rewrite map_map. apply map_ext. intros msg. now destruct (id msg =? aiId).
  - intros Hphase. rewrite for_of_decoded.
    destruct (on_events_updates events l s) as (new & Hu & Hn & _).
    pose proof (on_events_locals events l s) as Hl.
    pose proof (on_events_messages events l s) as Hm.
    destruct (on_events events (l, s)) as [l' s'] eqn:E. simpl in Hu, Hl, Hm.
    exists l', s', new. split; [reflexivity|]. split; [exact Hu|].
    rewrite Hphase in Hn. simpl in Hn. split; [exact Hn|].
    split; [subst l'; simpl; now rewrite Hphase|].
    split.
    + intros Hc msg Hin Hid. rewrite Hm in Hin.
      destruct (in_apply_patch _ _ _ _ Hin Hid) as (old & _ & _ & ->).
      unfold net_fields. rewrite Hphase, Hc. reflexivity.
    + intros Hc. rewrite Hm. simpl. rewrite map_map. apply map_ext. intros msg.
      destruct (id msg =? aiMessageId l); [|reflexivity].
      unfold net_fields. rewrite Hc. reflexivity.
Qed.

(** C5. After content events with texts [d :: ds] the accumulated
    content is what it was before them followed by the texts, in order;
    the contents written to the store, one by event, are the cumulative
    strings, each holding all the texts so far; and the assistant
    message holds the last of them.  The accumulator is empty when the
    read loop starts, so the content is then the texts concatenated. *)
Theorem content_is_cumulative (l : Locals) (s : State) (d : string) (ds : list string) :
  exists l' s' new,
    for_of (map decoded (map EvContent (d :: ds))) (dispatch ToString) (l, s)
    = (Normal tt, (l', s'))
    /\ accumulatedContent l' = accumulatedContent l ++ concat (d :: ds)
    /\ updates s' = (updates s ++ new)%list
    /\ flat_map content_written new = cumulative (accumulatedContent l) (d :: ds)
    /\ map id (messages s') = map id (messages s)
    /\ forall msg, In msg (messages s') -> id msg = aiMessageId l ->
                   content msg = accumulatedContent l ++ concat (d :: ds).
Proof.
  rewrite for_of_decoded.
  assert (Ht : forall texts, content_texts (map EvContent texts) = texts).
  { induction texts as [|t texts IH]; simpl; [reflexivity|]. f_equal. exact IH. }
  destruct (on_events_updates (map EvContent (d :: ds)) l s) as (new & Hu & _ & Hc).
  pose proof (on_events_locals (map EvContent (d :: ds)) l s) as Hl.
  pose proof (on_events_messages (map EvContent (d :: ds)) l s) as Hm.
  rewrite Ht in Hc, Hl.
  destruct (on_events (map EvContent (d :: ds)) (l, s)) as [l' s'] eqn:E.
  simpl fst in Hl. simpl snd in Hu, Hm.
  exists l', s', new. split; [reflexivity|].
  split; [now subst l'|]. split; [exact Hu|]. split; [exact Hc|].
  split; [rewrite Hm; apply map_id_apply_patch|].
  intros msg Hin Hid. rewrite Hm in Hin.
  destruct (in_apply_patch _ _ _ _ Hin Hid) as (old & _ & _ & ->).
  unfold net_fields. rewrite Ht. reflexivity.
Qed.

End EventTheorems.

(** The sample of the specification, through the tokenizer and the read
    loop: the deltas [Hel] and [lo], one chunk each, leave the content
    [Hello]. *)
Example content_sample_Hello :
  option_map content
    (last_message
       (state_of
          (run JSON.parse sample_ToString
               (handleSendMessage (sample_view false) sample_clock sample_state)
               [Response true 200 true;
                Chunk (wire "content" "Hel");
                Chunk (wire "content" "lo")])))
  = Some "Hello".
Proof. vm_compute. reflexivity. Qed.

(** ** The turn: invariants of a suspended turn *)

Section TurnFacts.

Import JSString StringFacts.

Variable JSON_parse : string -> Completion JS.Value.
Variable ToString : JS.Value -> Completion string.

Lemma mapi_app {A B : Type} (f : A -> nat -> B) (a b : list A) :
  forall k, mapi f k (a ++ b) = (mapi f k a ++ mapi f (k + List.length a) b)%list.
Proof.
  induction a as [|x a IH]; intros k; simpl.
  - now rewrite Nat.add_0_r.
  - rewrite IH. do 3 f_equal. lia.
Qed.

Lemma mapi_same {A : Type} (f : A -> nat -> A) (l : list A) :
  forall k, (forall x i, k <= i < k + List.length l -> f x i = x) -> mapi f k l = l.
Proof.
  induction l as [|x l IH]; intros k H; simpl; [reflexivity|].
  rewrite H by (simpl; lia). f_equal. apply IH. intros y i Hi. apply H. simpl. lia.
Qed.

Lemma apply_CancelLast (before : list Message) (msg : Message) :
  role msg = assistant -> isStreaming msg = Some true ->
  apply CancelLast (before ++ [msg]) = (before ++ [cancelled msg])%list.
Proof.
  intros Hr Hs. unfold apply. rewrite length_app. simpl List.length.
  replace (List.length before + 1 - 1) with (List.length before) by lia.
  rewrite mapi_app. simpl. rewrite Nat.eqb_refl, Hr, Hs. simpl. f_equal.
  apply mapi_same. intros x i Hi.
  destruct (Nat.eqb_spec i (List.length before)); [lia | reflexivity].
Qed.

Lemma app_two {A : Type} (l : list A) (a b : A) :
  (l ++ [a; b] = (l ++ [a]) ++ [b])%list.
Proof. now rewrite <- app_assoc. Qed.

Lemma apply_patch_last (i : string) (f : Partial) (before : list Message) (msg : Message) :
  id msg = i ->
  apply (Patch i f) (before ++ [msg])
  = (apply (Patch i f) before ++ [spread msg f])%list.
Proof.
  intros <-. simpl. rewrite map_app. simpl. now rewrite String.eqb_refl.
Qed.

(** *** [streaming] is kept by everything a chunk does *)

Lemma streaming_locals (l l' : Locals) (s : State) :
  aiMessageId l' = aiMessageId l -> accumulatedContent l' = accumulatedContent l ->
  streaming l s -> streaming l' s.
Proof.
  intros Hi Hc (Ha & before & msg & Hm & Hid & Hr & Hs & Hcont).
  split; [exact Ha|]. exists before, msg. rewrite Hi, Hc. auto.
Qed.

Lemma streaming_patch (l : Locals) (s : State) (f : Partial) :
  p_content f = None -> p_isStreaming f = None ->
  streaming l s -> streaming l (setMessages (Patch (aiMessageId l) f) s).
Proof.
  intros Hc Hs (Ha & before & msg & Hm & Hid & Hr & Hst & Hcont).
  split; [exact Ha|].
  exists (apply (Patch (aiMessageId l) f) before), (spread msg f).
  cbn [messages setMessages]. rewrite Hm, apply_patch_last by exact Hid.
  unfold spread. rewrite Hc, Hs. simpl. auto.
Qed.

Lemma streaming_content (l : Locals) (s : State) (acc : string) :
  streaming l s ->
  streaming (set_accumulatedContent acc l)
            (setMessages (Patch (aiMessageId l) (content_is acc)) s).
Proof.
  intros (Ha & before & msg & Hm & Hid & Hr & Hst & Hcont).
  split; [exact Ha|].
  exists (apply (Patch (aiMessageId l) (content_is acc)) before),
         (spread msg (content_is acc)).
  cbn [messages setMessages]. rewrite Hm, apply_patch_last by exact Hid.
  simpl. auto.
Qed.

Lemma dispatch_streaming (parsedChunk : JS.Value) (l l' : Locals) (s s' : State)
      (r : Completion unit) :
  streaming l s ->
  dispatch ToString parsedChunk (l, s) = (r, (l', s')) ->
  streaming l' s'.
Proof.
  intros H E. unfold dispatch, bindM, lift, local, assign, effect, ret in E.
  cbn [fst snd] in E.
  destruct (JS.get parsedChunk "type") as [ty|err]; cbn [fst snd] in E;
    [|injection E as _ <- <-; exact H].
  destruct (JS.strict_eq_string ty "reasoning"); cbn [fst snd] in E.
  { destruct (JS.get parsedChunk "data") as [data|err]; cbn [fst snd] in E;
      [|injection E as _ <- <-; exact H].
    destruct (plus ToString (accumulatedReasoning l) data) as [acc|err];
      cbn [fst snd] in E; [|injection E as _ <- <-; exact H].
    injection E as _ <- <-.
    apply (streaming_patch (set_accumulatedReasoning acc l)); [reflexivity|reflexivity|].
    now apply (streaming_locals l). }
  destruct (JS.strict_eq_string ty "content"); cbn [fst snd] in E.
  { assert (H1 : streaming (set_isReasoningPhase false l)
                   (setMessages (Patch (aiMessageId l) (isReasoningComplete_is true)) s)).
    { apply (streaming_patch (set_isReasoningPhase false l)); [reflexivity|reflexivity|].
      now apply (streaming_locals l). }
    destruct (isReasoningPhase l); cbn [fst snd] in E;
      (destruct (JS.get parsedChunk "data") as [data|err]; cbn [fst snd] in E;
       [|injection E as _ <- <-; assumption]);
      (match type of E with
       | context [plus ToString ?a data] =>
           destruct (plus ToString a data) as [acc|err]
       end; cbn [fst snd] in E; [|injection E as _ <- <-; assumption]);
      injection E as _ <- <-.
    - exact (streaming_content _ _ acc H1).
    - exact (streaming_content _ _ acc H). }
  destruct (JS.strict_eq_string ty "metadata"); cbn [fst snd] in E.
  { destruct (JS.get parsedChunk "data") as [data|err]; cbn [fst snd] in E;
      [|injection E as _ <- <-; exact H].
    injection E as _ <- <-.
    now apply streaming_patch. }
  injection E as _ <- <-. exact H.
Qed.

Lemma for_of_streaming (parsed : list JS.Value) :
  forall (l l' : Locals) (s s' : State) (r : Completion unit),
    streaming l s ->
    for_of parsed (dispatch ToString) (l, s) = (r, (l', s')) ->
    streaming l' s'.
Proof.
  induction parsed as [|parsedChunk parsed IH]; intros l l' s s' r H E; simpl in E.
  - unfold ret in E. injection E as _ <- <-. exact H.
  - unfold bindM in E.
    destruct (dispatch ToString parsedChunk (l, s)) as [r1 [l1 s1]] eqn:E1.
    apply (dispatch_streaming _ _ _ _ _ _ H) in E1.
    destruct r1 as [[]|err]; [eapply IH; eassumption|].
    injection E as _ <- <-. exact E1.
Qed.

Lemma on_chunk_streaming (chunk : string) (l l' : Locals) (s s' : State)
      (r : Completion unit) :
  streaming l s ->
  on_chunk JSON_parse ToString chunk (l, s) = (r, (l', s')) ->
  streaming l' s'.
Proof.
  intros H E. unfold on_chunk, bindM, lift, local, assign in E. cbn [fst snd] in E.
  destruct (parseJSONStream JSON_parse _) as [tk|err]; cbn [fst snd] in E.
  - apply (for_of_streaming _ _ _ _ _ _) in E; [exact E|].
    now apply (streaming_locals l).
  - injection E as _ <- <-. now apply (streaming_locals l).
Qed.

(** *** Every way out goes through [finally] *)

Lemma returns_clean (m : Mem) : clean (returns m).
Proof. split; reflexivity. Qed.

Lemma throws_clean (error : Thrown) (m : Mem) : clean (throws error m).
Proof. unfold throws. destruct (on_catch error m). apply returns_clean. Qed.

Lemma finish_clean (r : Completion unit * Mem) : clean (finish r).
Proof. destruct r as [[[]|error] m]; [apply returns_clean | apply throws_clean]. Qed.

Lemma resume_clean (next : Await) (r : Completion unit * Mem) : clean (resume next r).
Proof. destruct r as [[[]|error] [l s]]; [exact I | apply throws_clean]. Qed.

Lemma returns_returned (m : Mem) : exists s, returns m = Returned s.
Proof. eexists. reflexivity. Qed.

Lemma throws_returned (error : Thrown) (m : Mem) : exists s, throws error m = Returned s.
Proof. unfold throws. destruct (on_catch error m). apply returns_returned. Qed.

Lemma finish_returned (r : Completion unit * Mem) : exists s, finish r = Returned s.
Proof.
  destruct r as [[[]|error] m]; [apply returns_returned | apply throws_returned].
Qed.

Lemma handleCancelRequest_released (s : State) :
  abortControllerRef s = None -> handleCancelRequest s = s.
Proof. unfold handleCancelRequest. now intros ->. Qed.

Lemma step_clean (t : Turn) (e : Event) :
  clean t -> clean (step JSON_parse ToString t e).
Proof.
  destruct t as [at_ l s|s]; intros H; unfold step.
  - destruct e as [ok status body|errorText|text| |error|].
    + destruct at_; try exact I.
      destruct ok; [|exact I]. destruct body; [exact I | apply finish_clean].
    + destruct at_; try exact I. apply throws_clean.
    + destruct at_; try exact I. apply resume_clean.
    + destruct at_; try exact I. apply finish_clean.
    + apply throws_clean.
    + destruct (abortControllerRef s); [apply throws_clean | exact I].
  - destruct H as [Hl Ha].
    destruct e; try (split; assumption).
    simpl. rewrite (handleCancelRequest_released s Ha). split; assumption.
Qed.

Lemma run_clean (events : list Event) :
  forall t, clean t -> clean (run JSON_parse ToString t events).
Proof.
  induction events as [|e events IH]; intros t H; simpl; [exact H|].
  apply IH. now apply step_clean.
Qed.

Lemma run_app (t : Turn) (a b : list Event) :
  run JSON_parse ToString t (a ++ b)
  = run JSON_parse ToString (run JSON_parse ToString t a) b.
Proof. unfold run. apply fold_left_app. Qed.

(** A returned turn, once clean, takes no event. *)
Lemma run_returned (events : list Event) (s : State) :
  abortControllerRef s = None ->
  run JSON_parse ToString (Returned s) events = Returned s.
Proof.
  intros Ha. induction events as [|e events IH]; [reflexivity|].
  change (run JSON_parse ToString (Returned s) (e :: events))
    with (run JSON_parse ToString (step JSON_parse ToString (Returned s) e) events).
  replace (step JSON_parse ToString (Returned s) e) with (Returned s); [exact IH|].
  destruct e; try reflexivity. simpl. now rewrite handleCancelRequest_released.
Qed.

(** *** A suspended turn is streaming *)

Lemma step_streaming (t : Turn) (e : Event) :
  turn_streaming t -> turn_streaming (step JSON_parse ToString t e).
Proof.
  destruct t as [at_ l s|s]; intros H; unfold step; [|now destruct e].
  assert (Hthrows : forall error m, turn_streaming (throws error m)).
  { intros error m. destruct (throws_returned error m) as [s1 ->]. exact I. }
  assert (Hfinish : forall r, turn_streaming (finish r)).
  { intros r. destruct (finish_returned r) as [s1 ->]. exact I. }
  destruct e as [ok status body|errorText|text| |error|].
  - destruct at_; try exact H.
    destruct ok; [|exact H]. destruct body; [exact H | apply Hfinish].
  - destruct at_; try exact H. apply Hthrows.
  - destruct at_; try exact H.
    destruct (on_chunk JSON_parse ToString text (l, s)) as [r [l' s']] eqn:E.
    apply (on_chunk_streaming _ _ _ _ _ _ H) in E.
    destruct r as [[]|error]; [exact E | apply Hthrows].
  - destruct at_; try exact H. apply Hfinish.
  - apply Hthrows.
  - destruct (abortControllerRef s) eqn:Ea; [apply Hthrows|].
    destruct H as [Hne _]. contradiction.
Qed.

Lemma run_streaming (events : list Event) :
  forall t, turn_streaming t -> turn_streaming (run JSON_parse ToString t events).
Proof.
  induction events as [|e events IH]; intros t H; simpl; [exact H|].
  apply IH. now apply step_streaming.
Qed.

(** What [handleSendMessage] leaves when it gets to its first [await]. *)
Lemma handleSendMessage_started (v : View) (clock : Clock) (s0 : State)
      (at_ : Await) (l : Locals) (s : State) :
  handleSendMessage v clock s0 = Suspended at_ l s ->
  at_ = AwaitFetch
  /\ l = mkLocals (toString (now_ai clock + 1)) (reasoning_enabled v) "" ""
                  (reasoning_enabled v) ""
  /\ messages s
     = (messages s0
        ++ [mkMessage (toString (now_user clock)) (inputValue s0) user (date_user clock)
              None None None JS.Undefined;
            mkMessage (toString (now_ai clock + 1)) "" assistant (date_ai clock)
              (Some true) (if reasoning_enabled v then Some "" else None) (Some false)
              JS.Undefined])%list
  /\ isLoading s = true
  /\ abortControllerRef s = Some new_AbortController.
Proof.
  unfold handleSendMessage.
  destruct (_ || _); [discriminate|].
  destruct (token v) as [[|c tok]|]; try discriminate.
  intros E. injection E as <- <- <-.
  split; [reflexivity|]. split; [reflexivity|].
  cbn [messages setMessages set_abortControllerRef setIsUserScrolled setIsLoading
       setUploadedFiles setInputValue apply isLoading abortControllerRef].
  rewrite <- app_assoc. auto.
Qed.

Lemma handleSendMessage_streaming (v : View) (clock : Clock) (s0 : State) :
  turn_streaming (handleSendMessage v clock s0).
Proof.
  destruct (handleSendMessage v clock s0) as [at_ l s|s] eqn:E; [|exact I].
  destruct (handleSendMessage_started _ _ _ _ _ _ E) as (_ & -> & Hm & _ & Ha).
  split; [rewrite Ha; discriminate|].
  eexists. eexists. rewrite Hm.
  split; [apply (app_assoc (messages s0) [_] [_])|]. simpl. auto.
Qed.

(** *** The read loop feeds the tokenizer as [feed] does *)

Lemma dispatch_buffer (parsedChunk : JS.Value) (l l' : Locals) (s s' : State)
      (r : Completion unit) :
  dispatch ToString parsedChunk (l, s) = (r, (l', s')) -> buffer l' = buffer l.
Proof.
  intros E. unfold dispatch, bindM, lift, local, assign, effect, ret in E.
  cbn [fst snd] in E.
  destruct (JS.get parsedChunk "type") as [ty|err]; cbn [fst snd] in E;
    [|injection E as _ <- <-; reflexivity].
  destruct (JS.strict_eq_string ty "reasoning"); cbn [fst snd] in E.
  { destruct (JS.get parsedChunk "data") as [data|err]; cbn [fst snd] in E;
      [|injection E as _ <- <-; reflexivity].
    destruct (plus ToString (accumulatedReasoning l) data) as [acc|err];
      cbn [fst snd] in E; injection E as _ <- <-; reflexivity. }
  destruct (JS.strict_eq_string ty "content"); cbn [fst snd] in E.
  { destruct (isReasoningPhase l); cbn [fst snd] in E;
      (destruct (JS.get parsedChunk "data") as [data|err]; cbn [fst snd] in E;
       [|injection E as _ <- <-; reflexivity]);
      match type of E with
      | context [plus ToString ?a data] =>
          destruct (plus ToString a data) as [acc|err]
      end; cbn [fst snd] in E; injection E as _ <- <-; reflexivity. }
  destruct (JS.strict_eq_string ty "metadata"); cbn [fst snd] in E.
  { destruct (JS.get parsedChunk "data") as [data|err]; cbn [fst snd] in E;
      injection E as _ <- <-; reflexivity. }
  injection E as _ <- <-. reflexivity.
Qed.

Lemma for_of_buffer (parsed : list JS.Value) :
  forall (l l' : Locals) (s s' : State) (r : Completion unit),
    for_of parsed (dispatch ToString) (l, s) = (r, (l', s')) -> buffer l' = buffer l.
Proof.
  induction parsed as [|parsedChunk parsed IH]; intros l l' s s' r E; simpl in E.
  - unfold ret in E. now injection E as _ <- <-.
  - unfold bindM in E.
    destruct (dispatch ToString parsedChunk (l, s)) as [r1 [l1 s1]] eqn:E1.
    apply dispatch_buffer in E1.
    destruct r1 as [[]|err].
    + apply IH in E. congruence.
    + injection E as _ <- <-. exact E1.
Qed.

Lemma run_Returned (events : list Event) :
  forall s, exists s', run JSON_parse ToString (Returned s) events = Returned s'.
Proof.
  induction events as [|e events IH]; intros s; [now exists s|].
  destruct e; apply IH.
Qed.

(** As long as the read loop goes on, its buffer is the one [feed]
    ends with on the chunks read. *)
Lemma read_loop_feeds (chunks : list string) :
  forall (l l' : Locals) (s s' : State) (at' : Await),
    run JSON_parse ToString (Suspended AwaitRead l s) (map Chunk chunks)
    = Suspended at' l' s' ->
    exists parsed, feed JSON_parse chunks (buffer l) = Normal (parsed, buffer l').
Proof.
  induction chunks as [|chunk chunks IH]; intros l l' s s' at' E.
  - injection E as _ <- _. now exists [].
  - change (run JSON_parse ToString (Suspended AwaitRead l s) (map Chunk (chunk :: chunks)))
      with (run JSON_parse ToString
                (resume AwaitRead (on_chunk JSON_parse ToString chunk (l, s)))
                (map Chunk chunks)) in E.
    unfold on_chunk, bindM, lift, local, assign in E. cbn [fst snd] in E.
    change (buffer (set_buffer (buffer l ++ chunk) l)) with (buffer l ++ chunk) in E.
    simpl feed.
    destruct (parseJSONStream JSON_parse (buffer l ++ chunk)) as [tk|err] eqn:Etk;
      cbn [fst snd] in E.
    + destruct (for_of (tk_parsed tk) (dispatch ToString)
                       (set_buffer (tk_remaining tk) (set_buffer (buffer l ++ chunk) l), s))
        as [r [l1 s1]] eqn:Efor.
      pose proof (for_of_buffer _ _ _ _ _ _ Efor) as Hb. simpl in Hb.
      destruct r as [[]|err].
      * apply IH in E. destruct E as [parsed Ef]. rewrite Hb in Ef.
        simpl. rewrite Ef. simpl. eauto.
      * unfold resume in E.
        destruct (throws_returned err (l1, s1)) as [s2 E2].
        rewrite E2 in E. destruct (run_Returned (map Chunk chunks) s2) as [s3 E3].
        rewrite E3 in E. discriminate.
    + unfold resume in E.
      destruct (throws_returned err (set_buffer (buffer l ++ chunk) l, s)) as [s2 E2].
      rewrite E2 in E. destruct (run_Returned (map Chunk chunks) s2) as [s3 E3].
      rewrite E3 in E. discriminate.
Qed.

End TurnFacts.

(** ** The turn: cancellation, exits, the reasoning field *)

Section TurnTheorems.

Import JSString StringFacts.

Variable JSON_parse : string -> Completion JS.Value.
Variable ToString : JS.Value -> Completion string.

Lemma run_cons (t : Turn) (e : Event) (events : list Event) :
  run JSON_parse ToString t (e :: events)
  = run JSON_parse ToString (step JSON_parse ToString t e) events.
Proof. reflexivity. Qed.

Lemma step_Cancel (at_ : Await) (l : Locals) (s : State) :
  abortControllerRef s <> None ->
  step JSON_parse ToString (Suspended at_ l s) Cancel
  = Returned (set_abortControllerRef None (setIsLoading false (handleCancelRequest s))).
Proof.
  intros H. unfold step.
  destruct (abortControllerRef s); [reflexivity | contradiction].
Qed.

(** C6. Cancelling a turn that is still suspended, whatever has arrived
    so far, leaves its assistant message, the last of the transcript,
    with [isStreaming = false], [isReasoningComplete = true] and the
    accumulated content followed by the cancellation notice; the turn
    has returned, and no event that comes later changes anything. *)
Theorem cancel_mid_stream
        (v : View) (clock : Clock) (s0 : State) (events later : list Event)
        (at_ : Await) (l : Locals) (s : State) :
  run JSON_parse ToString (handleSendMessage v clock s0) events = Suspended at_ l s ->
  exists before msg s',
    messages s = (before ++ [msg])%list
    /\ id msg = aiMessageId l
    /\ run JSON_parse ToString (handleSendMessage v clock s0) (events ++ Cancel :: later)
       = Returned s'
    /\ messages s'
       = (before
          ++ [mkMessage (id msg) (accumulatedContent l ++ cancellation_notice) assistant
                (timestamp msg) (Some false) (reasoning msg) (Some true) (metadata msg)])%list
    /\ isLoading s' = false
    /\ abortControllerRef s' = None.
Proof.
  intros E.
  pose proof (run_streaming JSON_parse ToString events _
                (handleSendMessage_streaming v clock s0)) as H.
  rewrite E in H. destruct H as (Hne & before & msg & Hm & Hid & Hr & Hst & Hc).
  exists before, msg.
  eexists. split; [exact Hm|]. split; [exact Hid|].
  rewrite run_app, E.
  rewrite run_cons, (step_Cancel _ _ _ Hne), run_returned by reflexivity.
  split; [reflexivity|].
  split; [|split; reflexivity].
  unfold handleCancelRequest.
  destruct (abortControllerRef s); [|contradiction].
  cbn [messages setMessages set_abortControllerRef setIsLoading toast].
  rewrite Hm, (apply_CancelLast _ _ Hr Hst).
  unfold cancelled. now rewrite Hr, Hc.
Qed.

(** C9. Once a turn has got to its first [await], every way it returns
    leaves the loading indicator cleared and the abort controller
    released; and it does return on each terminal event: a rejection of
    the pending promise (network failure, a failing body stream), the
    user's cancellation, the end of the stream, a response without a
    body, and the text of a response that is not ok. *)
Theorem every_exit_cleans_up
        (v : View) (clock : Clock) (s0 : State) (events : list Event)
        (at_ : Await) (l : Locals) (s : State) :
  handleSendMessage v clock s0 = Suspended at_ l s ->
  (forall s',
      run JSON_parse ToString (Suspended at_ l s) events = Returned s' ->
      isLoading s' = false /\ abortControllerRef s' = None)
  /\ (forall at' l' s',
         run JSON_parse ToString (Suspended at_ l s) events = Suspended at' l' s' ->
         (forall error,
             returned_clean
               (step JSON_parse ToString (Suspended at' l' s') (Rejects error)))
         /\ returned_clean (step JSON_parse ToString (Suspended at' l' s') Cancel)
         /\ returned_clean (step JSON_parse ToString (Suspended AwaitRead l' s') Done)
         /\ (forall status,
                returned_clean
                  (step JSON_parse ToString (Suspended AwaitFetch l' s')
                        (Response true status false)))
         /\ (forall status errorText,
                step JSON_parse ToString (Suspended AwaitFetch l' s')
                     (Response false status true)
                = Suspended (AwaitText status) l' s'
                /\ returned_clean
                     (step JSON_parse ToString (Suspended (AwaitText status) l' s')
                           (Text errorText)))).
Proof.
  intros E0.
  assert (Hret : forall t, clean t -> (exists s1, t = Returned s1) -> returned_clean t).
  { intros t Hc [s1 ->]. exists s1. destruct Hc. auto. }
  split.
  - intros s' E.
    pose proof (run_clean JSON_parse ToString events (Suspended at_ l s) I) as H.
    rewrite E in H. exact H.
  - intros at' l' s' E.
    pose proof (run_streaming JSON_parse ToString events _
                  (handleSendMessage_streaming v clock s0)) as H.
    rewrite E0, E in H. destruct H as [Hne _].
    split; [|split; [|split; [|split]]].
    + intros error. apply Hret; [now apply step_clean | apply throws_returned].
    + apply Hret; [now apply step_clean|]. rewrite step_Cancel by exact Hne. eauto.
    + apply Hret; [now apply step_clean | apply finish_returned].
    + intros status. apply Hret; [now apply step_clean | apply finish_returned].
    + intros status errorText. split; [reflexivity|].
      apply Hret; [now apply step_clean | apply throws_returned].
Qed.

(** C7, as the code has it.  The assistant message of a turn is created
    with a reasoning field if and only if the selected model is a
    reasoning model, and the user message without one.  Once the stream
    events of the turn are dispatched the assistant message has a
    reasoning field if and only if the model is a reasoning model or one
    of the events was a reasoning event; the field then holds the texts
    of the reasoning events. *)
Theorem reasoning_field_presence
        (v : View) (clock : Clock) (s0 : State) (events : list StreamEvent)
        (at_ : Await) (l : Locals) (s : State) :
  handleSendMessage v clock s0 = Suspended at_ l s ->
  isReasoningModel l = reasoning_enabled v
  /\ (exists userMessage aiMessage,
         messages s = (messages s0 ++ [userMessage; aiMessage])%list
         /\ reasoning userMessage = None
         /\ id aiMessage = aiMessageId l
         /\ reasoning aiMessage = if isReasoningModel l then Some "" else None)
  /\ exists l' s' aiMessage',
       for_of (map decoded events) (dispatch ToString) (l, s) = (Normal tt, (l', s'))
       /\ last_message s' = Some aiMessage'
       /\ id aiMessage' = aiMessageId l
       /\ reasoning aiMessage'
          = if isReasoningModel l || existsb is_reasoning events
            then Some (concat (reasoning_texts events))
            else None.
Proof.
  intros E. destruct (handleSendMessage_started _ _ _ _ _ _ E) as (_ & -> & Hm & _ & _).
  split; [reflexivity|]. split.
  - eexists. eexists. split; [exact Hm|]. simpl. auto.
  - rewrite for_of_decoded.
    set (l := mkLocals _ _ _ _ _ _).
    pose proof (on_events_messages events l s) as Hmsg.
    destruct (on_events events (l, s)) as [l' s'] eqn:Eon. simpl snd in Hmsg.
    exists l', s'. eexists. split; [reflexivity|].
    unfold last_message. rewrite Hmsg, Hm.
    rewrite app_two, apply_patch_last by reflexivity.
    rewrite map_app. simpl map. rewrite last_last.
    split; [reflexivity|]. split; [reflexivity|].
    unfold net_fields, l. simpl.
    destruct (existsb is_reasoning events) eqn:Er.
    + now rewrite orb_true_r.
    + rewrite orb_false_r, (reasoning_texts_none events Er).
      now destruct (reasoning_enabled v).
Qed.

Lemma candidates_malformed_stream :
  candidates malformed_stream = [wire "content" "a"; "{bad}"; wire "content" "b"].
Proof. vm_compute. reflexivity. Qed.

Lemma remainder_malformed_stream : tk_remaining (cut malformed_stream) = "".
Proof. vm_compute. reflexivity. Qed.

(** C3. With [JSON.parse] parsing the two content events and rejecting
    [{bad}], the tokenizer cuts the stream of the scenario in three,
    returns the two content events in order and logs [{bad}]; the read
    loop, given the stream as one chunk, writes the content twice, with
    [a] and then with [a] and [b] after what was accumulated, and
    nothing else but the mark that ends a reasoning phase. *)
Theorem malformed_object_isolated (l : Locals) (s : State) :
  JSON_parse (wire "content" "a") = Normal (decoded (EvContent "a")) ->
  (exists error, JSON_parse "{bad}" = Throw error) ->
  JSON_parse (wire "content" "b") = Normal (decoded (EvContent "b")) ->
  buffer l = "" ->
  parseJSONStream JSON_parse malformed_stream
  = Normal (mkTokens [decoded (EvContent "a"); decoded (EvContent "b")] "" ["{bad}"])
  /\ exists s',
      step JSON_parse ToString (Suspended AwaitRead l s) (Chunk malformed_stream)
      = Suspended AwaitRead
          (mkLocals (aiMessageId l) (isReasoningModel l)
                    ((accumulatedContent l ++ "a") ++ "b")
                    (accumulatedReasoning l) false "")
          s'
      /\ updates s'
         = (updates s
            ++ (if isReasoningPhase l
                then [Patch (aiMessageId l) (isReasoningComplete_is true)]
                else [])
            ++ [Patch (aiMessageId l) (content_is (accumulatedContent l ++ "a"));
                Patch (aiMessageId l) (content_is ((accumulatedContent l ++ "a") ++ "b"))])%list
      /\ forall msg, In msg (messages s') -> id msg = aiMessageId l ->
                     content msg = (accumulatedContent l ++ "a") ++ "b".
Proof.
  intros Ha [error Hbad] Hb Hbuf.
  assert (Etk : parseJSONStream JSON_parse malformed_stream
                = Normal (mkTokens [decoded (EvContent "a"); decoded (EvContent "b")]
                                   "" ["{bad}"])).
  { rewrite parseJSONStream_candidates.
    rewrite candidates_malformed_stream, remainder_malformed_stream.
    unfold successes, failures. cbn [flat_map filter].
    rewrite Ha, Hbad, Hb. reflexivity. }
  split; [exact Etk|].
  set (events := [EvContent "a"; EvContent "b"]).
  set (m' := on_events events (set_buffer "" l, s)).
  assert (Estep : step JSON_parse ToString (Suspended AwaitRead l s) (Chunk malformed_stream)
                  = Suspended AwaitRead (fst m') (snd m')).
  { unfold step, on_chunk, bindM, lift, local, assign. cbn [fst snd].
    replace (buffer (set_buffer (buffer l ++ malformed_stream) l)) with malformed_stream
      by (now rewrite Hbuf).
    rewrite Etk. cbn [fst snd tk_parsed tk_remaining].
    change [decoded (EvContent "a"); decoded (EvContent "b")] with (map decoded events).
    change (set_buffer "" (set_buffer (buffer l ++ malformed_stream) l))
      with (set_buffer "" l).
    rewrite (for_of_decoded ToString events). fold m'. now destruct m' as [l' s']. }
  assert (Eassoc : forall acc, acc ++ concat (content_texts events) = (acc ++ "a") ++ "b").
  { intros acc. symmetry. apply append_assoc. }
  exists (snd m'). split; [|split].
  - rewrite Estep. reflexivity.
  - unfold m', events. destruct l as [aiId model accC accR phase buf].
    destruct phase; cbn; rewrite <- !app_assoc; reflexivity.
  - intros msg Hin Hid. unfold m' in Hin. rewrite on_events_messages in Hin.
    destruct (in_apply_patch _ _ _ _ Hin Hid) as (old & _ & _ & ->).
    unfold net_fields. cbn [existsb is_content events orb spread p_content content overwrite
                            accumulatedContent set_buffer].
    apply Eassoc.
Qed.

End TurnTheorems.

(** ** Samples *)

(** C3 at [JSON.parse] as modelled, in a reasoning phase. *)
Lemma malformed_object_isolated_sample :
  JSON.parse (wire "content" "a") = Normal (decoded (EvContent "a"))
  /\ (exists error, JSON.parse "{bad}" = Throw error)
  /\ JSON.parse (wire "content" "b") = Normal (decoded (EvContent "b"))
  /\ parseJSONStream JSON.parse malformed_stream
     = Normal (mkTokens [decoded (EvContent "a"); decoded (EvContent "b")] "" ["{bad}"])
  /\ exists s',
      step JSON.parse sample_ToString
           (Suspended AwaitRead (sample_locals true) sample_state)
           (Chunk malformed_stream)
      = Suspended AwaitRead (mkLocals "1002" true "ab" "" false "") s'
      /\ updates s'
         = [Patch "1002" (isReasoningComplete_is true);
            Patch "1002" (content_is "a");
            Patch "1002" (content_is "ab")]
      /\ forall msg, In msg (messages s') -> id msg = "1002" -> content msg = "ab".
Proof.
  assert (Ha : JSON.parse (wire "content" "a") = Normal (decoded (EvContent "a")))
    by reflexivity.
  assert (Hbad : exists error, JSON.parse "{bad}" = Throw error)
    by (eexists; reflexivity).
  assert (Hb : JSON.parse (wire "content" "b") = Normal (decoded (EvContent "b")))
    by reflexivity.
  split; [exact Ha|]. split; [exact Hbad|]. split; [exact Hb|].
  exact (malformed_object_isolated JSON.parse sample_ToString
           (sample_locals true) sample_state Ha Hbad Hb eq_refl).
Defined.

(** C4 at a turn whose transcript holds the user's message and the
    assistant message: a reasoning event, two content events, and a
    reasoning event after them. *)
Lemma reasoning_phase_transition_sample :
  isReasoningPhase (sample_locals true) = true
  /\ (exists l1 s1,
         dispatch sample_ToString (decoded (EvReasoning "th"))
                  (set_isReasoningPhase false (sample_locals true), sample_started)
         = (Normal tt, (l1, s1))
         /\ map content (messages s1) = map content (messages sample_started)
         /\ isReasoningPhase l1 = false)
  /\ exists l' s' new,
      for_of (map decoded [EvReasoning "th"; EvContent "a"; EvContent "b"; EvReasoning "x"])
             (dispatch sample_ToString) (sample_locals true, sample_started)
      = (Normal tt, (l', s'))
      /\ updates s' = (updates sample_started ++ new)%list
      /\ List.length (filter marks_reasoning_complete new) = 1
      /\ isReasoningPhase l' = false
      /\ forall msg, In msg (messages s') -> id msg = "1002" ->
                     isReasoningComplete msg = Some true.
Proof.
  split; [reflexivity|]. split.
  - destruct (reasoning_phase_transition sample_ToString
                (set_isReasoningPhase false (sample_locals true)) sample_started "th" [])
      as ((l1 & s1 & E & _ & Hc & _ & Hp) & _).
    exists l1, s1. auto.
  - destruct (reasoning_phase_transition sample_ToString (sample_locals true) sample_started
                "th" [EvReasoning "th"; EvContent "a"; EvContent "b"; EvReasoning "x"])
      as (_ & H).
    destruct (H eq_refl) as (l' & s' & new & E & Hu & Hn & Hp & Hc & _).
    exists l', s', new.
    split; [exact E|]. split; [exact Hu|]. split; [exact Hn|]. split; [exact Hp|].
    exact (Hc eq_refl).
Defined.

(** The transcript of that run: the content of the user's message is as
    it was, the assistant message holds both texts apart. *)
Example reasoning_phase_transition_evaluated :
  map (fun msg => (id msg, content msg, reasoning msg, isReasoningComplete msg))
      (messages
         (snd (snd (for_of (map decoded [EvReasoning "th"; EvContent "a"; EvContent "b";
                                         EvReasoning "x"])
                           (dispatch sample_ToString)
                           (sample_locals true, sample_started)))))
  = [("1000", "hello", None, None); ("1002", "ab", Some "thx", Some true)].
Proof. vm_compute. reflexivity. Qed.

(** C6 at a turn cancelled after its first chunk, with a chunk after
    the cancellation. *)
Lemma cancel_mid_stream_sample :
  exists at_ l s,
    run JSON.parse sample_ToString
        (handleSendMessage (sample_view true) sample_clock sample_state) sample_events
    = Suspended at_ l s
    /\ exists before msg s',
        messages s = (before ++ [msg])%list
        /\ id msg = aiMessageId l
        /\ run JSON.parse sample_ToString
               (handleSendMessage (sample_view true) sample_clock sample_state)
               (sample_events ++ Cancel :: [Chunk (wire "content" "lo")])
           = Returned s'
        /\ messages s'
           = (before
              ++ [mkMessage (id msg) (accumulatedContent l ++ cancellation_notice) assistant
                    (timestamp msg) (Some false) (reasoning msg) (Some true)
                    (metadata msg)])%list
        /\ isLoading s' = false
        /\ abortControllerRef s' = None.
Proof.
  eexists. eexists. eexists. split; [reflexivity|].
  eapply (cancel_mid_stream JSON.parse sample_ToString). reflexivity.
Defined.

(** The cancelled sample turn, evaluated: the content is [Hel] and the
    notice, and the chunk after the cancellation has left no trace. *)
Example cancel_mid_stream_evaluated :
  option_map (fun msg => (content msg, isStreaming msg, isReasoningComplete msg))
    (last_message
       (state_of
          (run JSON.parse sample_ToString
               (handleSendMessage (sample_view true) sample_clock sample_state)
               (sample_events ++ Cancel :: [Chunk (wire "content" "lo")]))))
  = Some ("Hel" ++ cancellation_notice, Some false, Some true).
Proof. vm_compute. reflexivity. Qed.

(** C9 at the sample turn. *)
Lemma every_exit_cleans_up_sample :
  exists at_ l s,
    handleSendMessage (sample_view true) sample_clock sample_state = Suspended at_ l s
    /\ (forall s',
           run JSON.parse sample_ToString (Suspended at_ l s) (sample_events ++ [Done])
           = Returned s' ->
           isLoading s' = false /\ abortControllerRef s' = None)
    /\ exists s',
        run JSON.parse sample_ToString (Suspended at_ l s) (sample_events ++ [Done])
        = Returned s'.
Proof.
  eexists. eexists. eexists. split; [reflexivity|]. split.
  - eapply (every_exit_cleans_up JSON.parse sample_ToString
              (sample_view true) sample_clock sample_state (sample_events ++ [Done])).
    reflexivity.
  - eexists. reflexivity.
Defined.

(** C7 at a turn of a model that is no reasoning model, with one
    reasoning event. *)
Lemma reasoning_field_presence_sample :
  exists at_ l s,
    handleSendMessage (sample_view false) sample_clock sample_state = Suspended at_ l s
    /\ isReasoningModel l = false
    /\ exists l' s' aiMessage',
        for_of (map decoded [EvReasoning "x"]) (dispatch sample_ToString) (l, s)
        = (Normal tt, (l', s'))
        /\ last_message s' = Some aiMessage'
        /\ id aiMessage' = aiMessageId l
        /\ reasoning aiMessage' = Some "x".
Proof.
  eexists. eexists. eexists. split; [reflexivity|].
  destruct (reasoning_field_presence sample_ToString
              (sample_view false) sample_clock sample_state [EvReasoning "x"]
              _ _ _ eq_refl)
    as (Hm & _ & l' & s' & aiMessage' & E & Hlast & Hid & Hr).
  split; [exact Hm|]. exists l', s', aiMessage'. auto.
Defined.

(** C7, as stated, fails: the model of the turn is no reasoning model,
    and the assistant message, created without a reasoning field, has
    one once a reasoning event of the stream is processed. *)
Lemma reasoning_appears_without_reasoning_model :
  reasoning_enabled (sample_view false) = false
  /\ option_map (fun msg => (role msg, reasoning msg))
       (last_message
          (state_of (handleSendMessage (sample_view false) sample_clock sample_state)))
     = Some (assistant, None)
  /\ option_map (fun msg => (role msg, reasoning msg))
       (last_message
          (state_of
             (run JSON.parse sample_ToString
                  (handleSendMessage (sample_view false) sample_clock sample_state)
                  [Response true 200 true; Chunk (wire "reasoning" "x")])))
     = Some (assistant, Some "x").
Proof. repeat split; vm_compute; reflexivity. Qed.

(** The end-to-end scenario of the specification, the stream split in
    the middle of an object: a model without reasoning; the final message
    has content [Hi there], is no longer streaming and carries the token
    counts; the loading indicator is cleared. *)
Example end_to_end_sample :
  let t := run JSON.parse sample_ToString
               (handleSendMessage (sample_view false) sample_clock sample_state)
               [Response true 200 true;
                Chunk (JSString.take 40 end_to_end_stream);
                Chunk (JSString.drop 40 end_to_end_stream);
                Done] in
  option_map (fun msg => (content msg, isStreaming msg, reasoning msg, metadata msg))
             (last_message (state_of t))
  = Some ("Hi there", Some false, None,
          JS.Object [("prompt_tokens", JS.Number "5");
                     ("completion_tokens", JS.Number "2");
                     ("total_tokens", JS.Number "7")])
  /\ isLoading (state_of t) = false
  /\ abortControllerRef (state_of t) = None.
Proof. vm_compute. auto. Qed.

(** * Further properties of the tokenizer *)

Section TokenizerMore.

Import JSString StringFacts.

Context {A : Type}.
Variable JSON_parse : string -> Completion A.

Lemma take_take_drop (a b : nat) (s : string) :
  take a s ++ take b (drop a s) = take (a + b) s.
Proof.
  revert a; induction s as [|c s IH]; intros [|a]; simpl.
  - now rewrite take_nil.
  - now rewrite take_nil.
  - reflexivity.
  - now rewrite IH.
Qed.

Lemma concat_snoc (l : list string) (x : string) :
  concat (l ++ [x]) = concat l ++ x.
Proof.
  induction l as [|y l IH].
  - simpl. unfold concat. simpl. reflexivity.
  - change ((y :: l) ++ [x])%list with (y :: (l ++ [x]))%list.
    rewrite !concat_cons, IH. now rewrite append_assoc.
Qed.

(** In the run that accepts every candidate the candidates cut so far
    are, end to end, the buffer up to [start]. *)
Lemma advance_conserves (remaining : string) (i : nat) (char : ascii) (c : Cursor string) :
  start c <= i /\ concat (parsed c) = take (start c) remaining ->
  let c' := advance accept remaining i char c in
  start c' <= S i /\ concat (parsed c') = take (start c') remaining.
Proof.
  intros [Hle Hc]. unfold advance.
  destruct (escaped c); [simpl; split; [lia|exact Hc]|].
  destruct (char =? "\")%char; [simpl; split; [lia|exact Hc]|].
  destruct (char =? dquote)%char; [simpl; split; [lia|exact Hc]|].
  destruct (inString c); [simpl; split; [lia|exact Hc]|].
  destruct (char =? "{")%char; [simpl; split; [lia|exact Hc]|].
  destruct (char =? "}")%char; [|simpl; split; [lia|exact Hc]].
  cbv zeta. simpl.
  destruct (depth c - 1 =? 0)%Z; [|simpl; split; [lia|exact Hc]].
  simpl. split; [lia|].
  rewrite concat_snoc, Hc. unfold substring2.
  rewrite substring_take_drop.
  replace (Nat.min (start c) (i + 1)) with (start c) by lia.
  replace (Nat.max (start c) (i + 1) - start c) with (i + 1 - start c) by lia.
  rewrite take_take_drop. f_equal. lia.
Qed.

Lemma sweep_conserves (remaining rest : string) :
  forall (i : nat) (c : Cursor string),
    start c <= i /\ concat (parsed c) = take (start c) remaining ->
    let c' := sweep accept remaining rest i c in
    start c' <= i + String.length rest
    /\ concat (parsed c') = take (start c') remaining.
Proof.
  induction rest as [|char rest IH]; intros i c H; simpl.
  - rewrite Nat.add_0_r. exact H.
  - apply (advance_conserves remaining i char) in H.
    apply IH in H. simpl in H. destruct H as [Hle Hc]. split; [lia | exact Hc].
Qed.

(** X1. Nothing is lost and nothing is doubled: the texts handed to
    [JSON.parse], end to end in the order they were cut, followed by the
    remainder, are the buffer. *)
Theorem candidates_and_remainder_are_the_buffer (buffer : string) :
  exists tk,
    parseJSONStream JSON_parse buffer = Normal tk
    /\ concat (candidates buffer) ++ tk_remaining tk = buffer.
Proof.
  rewrite parseJSONStream_candidates. eexists. split; [reflexivity|].
  cbn [tk_remaining]. unfold candidates. rewrite cut_sweep. cbv zeta. simpl.
  destruct (sweep_conserves buffer buffer 0 init) as [_ Hc].
  { simpl. split; [lia | reflexivity]. }
  rewrite Hc. apply take_drop.
Qed.

(** X2. The remainder holds no complete candidate: tokenized alone it
    yields no object and no warning, and is returned whole. *)
Theorem remainder_yields_nothing (buffer : string) :
  exists tk,
    parseJSONStream JSON_parse buffer = Normal tk
    /\ parseJSONStream JSON_parse (tk_remaining tk)
       = Normal (mkTokens [] (tk_remaining tk) []).
Proof.
  rewrite parseJSONStream_sweep. cbv zeta. eexists. split; [reflexivity|].
  cbn [tk_remaining]. rewrite parseJSONStream_sweep. cbv zeta.
  destruct (remainder_rescanned JSON_parse buffer) as (_ & _ & _ & Hst & Hp & Hw).
  set (c := sweep JSON_parse buffer buffer 0 init) in *.
  set (r := drop (start c) buffer) in *.
  set (c' := sweep JSON_parse r r 0 init) in *.
  assert (E0 : start c' = 0) by lia.
  assert (Ep : parsed c' = []).
  { apply (app_inv_head (parsed c)). now rewrite app_nil_r. }
  assert (Ew : console c' = []).
  { apply (app_inv_head (console c)). now rewrite app_nil_r. }
  now rewrite E0, Ep, Ew.
Qed.

End TokenizerMore.

(** ** Strings and nesting *)

Section Nesting.

Import JSString StringFacts.

Context {A : Type}.
Variable JSON_parse : string -> Completion A.

Lemma set_inString_same (c : Cursor A) (b : bool) :
  inString c = b -> set_inString b c = c.
Proof. intros <-. now destruct c. Qed.

Lemma set_escaped_same (c : Cursor A) (b : bool) :
  escaped c = b -> set_escaped b c = c.
Proof. intros <-. now destruct c. Qed.

Lemma set_depth_same (c : Cursor A) (d : Z) :
  depth c = d -> set_depth d c = c.
Proof. intros <-. now destruct c. Qed.

Lemma eqb_neq_false (a b : ascii) : a <> b -> (a =? b)%char = false.
Proof. intros H. now apply Ascii.eqb_neq. Qed.

(** Inside a string, a text without a double quote changes nothing but
    the escape flag. *)
Lemma sweep_in_string (remaining rest : string) :
  forall (i : nat) (c : Cursor A),
    inString c = true -> no_quote rest = true ->
    let c' := sweep JSON_parse remaining rest i c in
    depth c' = depth c /\ start c' = start c /\ parsed c' = parsed c
    /\ console c' = console c /\ inString c' = true.
Proof.
  induction rest as [|char rest IH]; intros i c Hs Hq; simpl; [auto|].
  simpl in Hq. apply andb_prop in Hq. destruct Hq as [Hc Hq].
  apply negb_true_iff in Hc.
  assert (H : let c1 := advance JSON_parse remaining i char c in
              depth c1 = depth c /\ start c1 = start c /\ parsed c1 = parsed c
              /\ console c1 = console c /\ inString c1 = true).
  { unfold advance. rewrite Hc, Hs.
    destruct (escaped c); [simpl; auto|].
    destruct (char =? "\")%char; simpl; auto. }
  destruct H as (H1 & H2 & H3 & H4 & H5).
  destruct (IH (S i) _ H5 Hq) as (K1 & K2 & K3 & K4 & K5).
  rewrite K1, K2, K3, K4. auto.
Qed.

(** X3. Inside a string no character but a double quote matters: a text
    without a double quote, braces and backslashes included, leaves the
    brace counter, the start of the candidate and the output as they
    are, and the scanner inside the string. *)
Theorem braces_in_a_string_are_not_counted
        (remaining rest : string) (i : nat) (c : Cursor A) :
  inString c = true -> no_quote rest = true ->
  exists c',
    loop JSON_parse remaining rest i c = Normal c'
    /\ depth c' = depth c /\ start c' = start c /\ parsed c' = parsed c
    /\ console c' = console c /\ inString c' = true.
Proof.
  intros Hs Hq. rewrite loop_sweep. eexists. split; [reflexivity|].
  now apply sweep_in_string.
Qed.

Lemma sweep_cons (remaining rest : string) (char : ascii) (i : nat) (c : Cursor A) :
  sweep JSON_parse remaining (String char rest) i c
  = sweep JSON_parse remaining rest (S i) (advance JSON_parse remaining i char c).
Proof. reflexivity. Qed.

Lemma advance_escaped (remaining : string) (i : nat) (char : ascii) (c : Cursor A) :
  escaped c = true -> advance JSON_parse remaining i char c = set_escaped false c.
Proof. intros H. unfold advance. now rewrite H. Qed.

Lemma advance_backslash (remaining : string) (i : nat) (c : Cursor A) :
  escaped c = false -> advance JSON_parse remaining i "\" c = set_escaped true c.
Proof. intros H. unfold advance. now rewrite H. Qed.

Lemma advance_quote (remaining : string) (i : nat) (c : Cursor A) :
  escaped c = false ->
  advance JSON_parse remaining i dquote c = set_inString (negb (inString c)) c.
Proof. intros H. unfold advance. now rewrite H. Qed.

Lemma advance_in_string (remaining : string) (i : nat) (char : ascii) (c : Cursor A) :
  escaped c = false -> inString c = true -> char <> dquote -> char <> "\"%char ->
  advance JSON_parse remaining i char c = c.
Proof.
  intros He Hs Hq Hb. unfold advance.
  now rewrite He, (eqb_neq_false _ _ Hb), (eqb_neq_false _ _ Hq), Hs.
Qed.

Lemma advance_plain (remaining : string) (i : nat) (char : ascii) (c : Cursor A) :
  escaped c = false -> inString c = false ->
  char <> "{"%char -> char <> "}"%char -> char <> dquote -> char <> "\"%char ->
  advance JSON_parse remaining i char c = c.
Proof.
  intros He Hs H1 H2 Hq Hb. unfold advance.
  now rewrite He, (eqb_neq_false _ _ Hb), (eqb_neq_false _ _ Hq), Hs,
    (eqb_neq_false _ _ H1), (eqb_neq_false _ _ H2).
Qed.

Lemma advance_open (remaining : string) (i : nat) (c : Cursor A) :
  escaped c = false -> inString c = false ->
  advance JSON_parse remaining i "{" c = set_depth (depth c + 1) c.
Proof. intros He Hs. unfold advance. now rewrite He, Hs. Qed.

Lemma advance_close_below (remaining : string) (i : nat) (c : Cursor A) :
  escaped c = false -> inString c = false -> depth c <> 1%Z ->
  advance JSON_parse remaining i "}" c = set_depth (depth c - 1) c.
Proof.
  intros He Hs Hd. unfold advance. rewrite He, Hs. simpl.
  destruct (Z.eqb_spec (depth c - 1) 0); [lia | reflexivity].
Qed.

Lemma advance_close_top (remaining : string) (i : nat) (c : Cursor A) :
  escaped c = false -> inString c = false -> depth c = 1%Z ->
  advance JSON_parse remaining i "}" c
  = let jsonStr := substring2 remaining (start c) (i + 1) in
    set_start (i + 1)
      match JSON_parse jsonStr with
      | Normal obj => push obj (set_depth 0 c)
      | Throw _ => warn jsonStr (set_depth 0 c)
      end.
Proof.
  intros He Hs Hd. unfold advance. rewrite He, Hs, Hd. reflexivity.
Qed.

(** A string literal, from after its opening quote to its closing
    quote, takes the scanner out of the string and changes nothing
    else. *)
Lemma sweep_string_body (remaining w : string) :
  StringBody w ->
  forall (rest : string) (i : nat) (c : Cursor A),
    inString c = true -> escaped c = false ->
    sweep JSON_parse remaining (w ++ String dquote rest) i c
    = sweep JSON_parse remaining rest (i + String.length w + 1) (set_inString false c).
Proof.
  induction 1 as [|ch s Hq Hb Hs IH|ch s Hs IH]; intros rest i c Hin Hesc;
    cbn [append String.length].
  - rewrite sweep_cons, advance_quote, Hin by exact Hesc. simpl negb. f_equal. lia.
  - rewrite sweep_cons, advance_in_string, IH by assumption. f_equal. lia.
  - rewrite !sweep_cons, advance_backslash, advance_escaped by (exact Hesc || reflexivity).
    replace (set_escaped false (set_escaped true c)) with c
      by (destruct c; simpl in Hesc; now subst).
    rewrite IH by assumption. f_equal. lia.
Qed.

(** The same without the closing quote: the scanner stays inside the
    string. *)
Lemma sweep_string_open (remaining w : string) :
  StringBody w ->
  forall (i : nat) (c : Cursor A),
    inString c = true -> escaped c = false ->
    sweep JSON_parse remaining w i c = c.
Proof.
  induction 1 as [|ch s Hq Hb Hs IH|ch s Hs IH]; intros i c Hin Hesc.
  - reflexivity.
  - rewrite sweep_cons, advance_in_string by assumption. now apply IH.
  - rewrite !sweep_cons, advance_backslash, advance_escaped by (exact Hesc || reflexivity).
    replace (set_escaped false (set_escaped true c)) with c
      by (destruct c; simpl in Hesc; now subst).
    now apply IH.
Qed.

(** Below the top level, a well-nested text leaves the cursor as it
    is. *)
Lemma sweep_well_nested (remaining x : string) :
  WellNested x ->
  forall (rest : string) (i : nat) (c : Cursor A),
    inString c = false -> escaped c = false -> (1 <= depth c)%Z ->
    sweep JSON_parse remaining (x ++ rest) i c
    = sweep JSON_parse remaining rest (i + String.length x) c.
Proof.
  induction 1 as [|ch s H1 H2 H3 H4 Hs IH|w s Hw Hs IH|y s Hy IHy Hs IHs];
    intros rest i c Hin Hesc Hd.
  - simpl. now rewrite Nat.add_0_r.
  - cbn [append String.length].
    rewrite sweep_cons, advance_plain, IH by assumption. f_equal. lia.
  - cbn [append String.length]. rewrite append_assoc. cbn [append].
    rewrite sweep_cons, advance_quote, Hin by exact Hesc. simpl negb.
    rewrite sweep_string_body by (exact Hw || reflexivity || exact Hesc).
    replace (set_inString false (set_inString true c)) with c
      by (destruct c; simpl in Hin; now subst).
    rewrite IH by assumption. rewrite length_append. simpl. f_equal. lia.
  - cbn [append String.length]. rewrite append_assoc. cbn [append].
    rewrite sweep_cons, advance_open by assumption.
    rewrite IHy by (simpl; try assumption; lia).
    rewrite sweep_cons, advance_close_below by (simpl; try assumption; lia).
    replace (set_depth (depth (set_depth (depth c + 1) c) - 1) (set_depth (depth c + 1) c))
      with c.
    2:{ clear. destruct c as [p w d st ins esc]. unfold set_depth. simpl.
        f_equal. lia. }
    rewrite IHs by assumption. rewrite length_append. simpl. f_equal. lia.
Qed.

Lemma sweep_well_nested_end (remaining x : string) (i : nat) (c : Cursor A) :
  WellNested x ->
  inString c = false -> escaped c = false -> (1 <= depth c)%Z ->
  sweep JSON_parse remaining x i c = c.
Proof.
  intros Hx Hin Hesc Hd.
  pose proof (sweep_well_nested remaining x Hx "" i c Hin Hesc Hd) as H.
  now rewrite append_nil_r in H.
Qed.

Lemma drop_all (n : nat) (s : string) : String.length s <= n -> drop n s = "".
Proof.
  revert n; induction s as [|c s IH]; intros [|n] H; simpl in *; try reflexivity; try lia.
  apply IH. lia.
Qed.

End Nesting.

Section Objects.

Import JSString StringFacts.

(** One object with a well-nested body is one candidate. *)
Lemma cut_object (x : string) :
  WellNested x -> cut (object x) = mkTokens [object x] "" [].
Proof.
  intros Hx. rewrite cut_sweep. cbv zeta. unfold object.
  rewrite (sweep_cons accept), (advance_open accept) by reflexivity.
  rewrite (sweep_well_nested accept) by (exact Hx || reflexivity || (simpl; lia)).
  rewrite (sweep_cons accept), (advance_close_top accept) by reflexivity.
  cbv zeta. unfold accept at 1. simpl parsed. simpl start. simpl console.
  unfold substring2. rewrite substring_take_drop. simpl Nat.min. simpl drop.
  assert (El : String.length (String "{" (x ++ "}")) = 1 + String.length x + 1).
  { simpl. rewrite length_append. simpl. lia. }
  assert (Ex : String.length (x ++ "}") = String.length x + 1).
  { rewrite length_append. simpl. lia. }
  rewrite take_all by lia. rewrite drop_all by lia. reflexivity.
Qed.

Lemma cut_console (buffer : string) : tk_console (cut buffer) = [].
Proof.
  rewrite cut_sweep. cbv zeta. simpl.
  apply (sweep_accept_fresh buffer buffer 0 init). simpl. auto.
Qed.

Lemma cut_objects (xs : list string) :
  Forall WellNested xs ->
  cut (concat (map object xs)) = mkTokens (map object xs) "" [].
Proof.
  induction 1 as [|x xs Hx Hxs IH].
  - reflexivity.
  - cbn [map]. rewrite concat_cons.
    destruct (parseJSONStream_chunk accept (object x) (concat (map object xs)))
      as (ta & tb & Ha & Hb & Hab).
    assert (Ea : ta = cut (object x)) by (unfold cut; now rewrite Ha).
    rewrite (cut_object x Hx) in Ea. subst ta. simpl in Hb.
    assert (Eb : tb = cut (concat (map object xs))) by (unfold cut; now rewrite Hb).
    rewrite IH in Eb. subst tb.
    unfold cut. rewrite Hab. reflexivity.
Qed.

End Objects.

Section NestingTheorems.

Import JSString StringFacts.

Context {A : Type}.
Variable JSON_parse : string -> Completion A.

(** X4. A stream of objects laid end to end is cut back into those
    objects, whatever their bodies hold as long as they are well nested:
    nested objects are not split, braces and escaped quotes inside
    string literals are not counted.  The objects returned are those
    that parse, in order, and nothing is left over. *)
Theorem objects_are_cut_apart (xs : list string) :
  Forall WellNested xs ->
  candidates (concat (map object xs)) = map object xs
  /\ parseJSONStream JSON_parse (concat (map object xs))
     = Normal (mkTokens (successes JSON_parse (map object xs)) ""
                        (failures JSON_parse (map object xs))).
Proof.
  intros H. rewrite parseJSONStream_candidates. unfold candidates.
  rewrite (cut_objects xs H). auto.
Qed.

End NestingTheorems.

Lemma sample_body_nested_WellNested : WellNested sample_body_nested.
Proof.
  unfold sample_body_nested.
  apply wn_string; [apply sb_char; [discriminate | discriminate | apply sb_nil]|].
  apply wn_char; try discriminate.
  apply wn_object; [|apply wn_nil].
  apply wn_string; [apply sb_char; [discriminate | discriminate | apply sb_nil]|].
  apply wn_char; try discriminate.
  apply wn_string; [apply sb_char; [discriminate | discriminate | apply sb_nil]|].
  apply wn_nil.
Qed.

Lemma sample_body_flat_WellNested : WellNested sample_body_flat.
Proof.
  unfold sample_body_flat.
  apply wn_string; [apply sb_char; [discriminate | discriminate | apply sb_nil]|].
  apply wn_char; try discriminate.
  apply wn_char; try discriminate.
  apply wn_nil.
Qed.

(** X3 at a cursor inside a string, over a text with braces. *)
Lemma braces_in_a_string_sample :
  exists c',
    loop JSON.parse "" "a}{\b" 7 (mkCursor [] [] 1 0 true false) = Normal c'
    /\ depth c' = 1%Z /\ start c' = 0 /\ parsed c' = []
    /\ console c' = [] /\ inString c' = true.
Proof.
  exact (braces_in_a_string_are_not_counted JSON.parse "" "a}{\b" 7
           (mkCursor [] [] 1 0 true false) eq_refl eq_refl).
Defined.

(** X4 at a nested object followed by a flat one. *)
Lemma objects_are_cut_apart_sample :
  candidates (JSString.concat (map object [sample_body_nested; sample_body_flat]))
  = map object [sample_body_nested; sample_body_flat]
  /\ parseJSONStream JSON.parse
       (JSString.concat (map object [sample_body_nested; sample_body_flat]))
     = Normal (mkTokens
                 (successes JSON.parse (map object [sample_body_nested; sample_body_flat]))
                 ""
                 (failures JSON.parse (map object [sample_body_nested; sample_body_flat]))).
Proof.
  apply (objects_are_cut_apart JSON.parse [sample_body_nested; sample_body_flat]).
  apply Forall_cons; [exact sample_body_nested_WellNested|].
  apply Forall_cons; [exact sample_body_flat_WellNested | apply Forall_nil].
Defined.

(** The sample stream, evaluated: both objects parse. *)
Example objects_are_cut_apart_evaluated :
  parseJSONStream JSON.parse
    (JSString.concat (map object [sample_body_nested; sample_body_flat]))
  = Normal (mkTokens
              [JS.Object [("k", JS.Object [("x", JS.Str "}")])];
               JS.Object [("a", JS.Number "1")]]
              "" []).
Proof. vm_compute. reflexivity. Qed.

(** * Further properties of the dispatch *)

Section DispatchMore.

Import JSString StringFacts.

Variable JSON_parse : string -> Completion JS.Value.
Variable ToString : JS.Value -> Completion string.

Lemma dispatch_unrecognized (parsedChunk : JS.Value) (m : Mem) :
  unrecognized parsedChunk = true -> dispatch ToString parsedChunk m = (Normal tt, m).
Proof.
  unfold unrecognized, dispatch, bindM, lift, local. intros H.
  destruct (JS.get parsedChunk "type") as [ty|err]; [|discriminate].
  apply negb_true_iff in H. apply orb_false_iff in H. destruct H as [H H3].
  apply orb_false_iff in H. destruct H as [H1 H2].
  cbn [fst snd]. rewrite H1, H2, H3. reflexivity.
Qed.

Lemma for_of_unrecognized (parsed : list JS.Value) (m : Mem) :
  forallb unrecognized parsed = true ->
  for_of parsed (dispatch ToString) m = (Normal tt, m).
Proof.
  induction parsed as [|parsedChunk parsed IH]; intros H; [reflexivity|].
  simpl in H. apply andb_prop in H. destruct H as [H1 H2].
  simpl. unfold bindM. rewrite (dispatch_unrecognized _ _ H1). now apply IH.
Qed.

(** X6. A chunk whose objects all carry a type the dispatch does not
    know, or no type, is consumed without a trace: the turn stays
    suspended on the next read, the transcript, the toasts and the
    accumulators are as before, and only the buffer moves on. *)
Theorem unknown_events_are_ignored
        (text : string) (l : Locals) (s : State) (tk : Tokens JS.Value) :
  parseJSONStream JSON_parse (buffer l ++ text) = Normal tk ->
  forallb unrecognized (tk_parsed tk) = true ->
  step JSON_parse ToString (Suspended AwaitRead l s) (Chunk text)
  = Suspended AwaitRead (set_buffer (tk_remaining tk) l) s.
Proof.
  intros Htk Hun. unfold step, on_chunk, bindM, lift, local, assign. cbn [fst snd].
  change (buffer (set_buffer (buffer l ++ text) l)) with (buffer l ++ text).
  rewrite Htk. cbn [fst snd].
  rewrite (for_of_unrecognized _ _ Hun). reflexivity.
Qed.

(** X7. However reasoning, content and metadata events are interleaved,
    the accumulated content is the texts of the content events in order
    after what was accumulated, the accumulated reasoning those of the
    reasoning events; the assistant message holds both, and the data of
    the last metadata event; its streaming flag is not touched, and the
    messages with another id are left as they are. *)
Theorem events_accumulate_apart (l : Locals) (s : State) (events : list StreamEvent) :
  exists l' s',
    for_of (map decoded events) (dispatch ToString) (l, s) = (Normal tt, (l', s'))
    /\ accumulatedContent l' = accumulatedContent l ++ concat (content_texts events)
    /\ accumulatedReasoning l' = accumulatedReasoning l ++ concat (reasoning_texts events)
    /\ (forall msg,
           In msg (messages s') -> id msg = aiMessageId l ->
           exists old,
             In old (messages s) /\ id old = aiMessageId l
             /\ isStreaming msg = isStreaming old
             /\ (existsb is_content events = true -> content msg = accumulatedContent l')
             /\ (existsb is_content events = false -> content msg = content old)
             /\ (existsb is_reasoning events = true ->
                 reasoning msg = Some (accumulatedReasoning l'))
             /\ (existsb is_reasoning events = false -> reasoning msg = reasoning old)
             /\ metadata msg = match last_usage events with
                               | Some usage => usage
                               | None => metadata old
                               end)
    /\ (forall msg, id msg <> aiMessageId l ->
                    (In msg (messages s') <-> In msg (messages s))).
Proof.
  rewrite for_of_decoded.
  pose proof (on_events_locals events l s) as Hl.
  pose proof (on_events_messages events l s) as Hm.
  destruct (on_events events (l, s)) as [l' s'] eqn:E. simpl fst in Hl. simpl snd in Hm.
  exists l', s'. split; [reflexivity|].
  split; [now subst l'|]. split; [now subst l'|]. split.
  - intros msg Hin Hid. rewrite Hm in Hin.
    destruct (in_apply_patch _ _ _ _ Hin Hid) as (old & Hold & Hido & ->).
    exists old. split; [exact Hold|]. split; [exact Hido|].
    subst l'. unfold net_fields, spread. cbn.
    split; [reflexivity|].
    split; [now intros ->|]. split; [now intros ->|].
    split; [now intros ->|]. split; [now intros ->|].
    now destruct (last_usage events).
  - intros msg Hid. rewrite Hm. simpl. rewrite in_map_iff. split.
    + intros (old & Eo & Hin). destruct (id old =? aiMessageId l) eqn:Ei.
      * apply String.eqb_eq in Ei. subst msg. simpl in Hid. contradiction.
      * now subst.
    + intros Hin. exists msg. split; [|exact Hin].
      destruct (id msg =? aiMessageId l) eqn:Ei; [|reflexivity].
      apply String.eqb_eq in Ei. contradiction.
Qed.

End DispatchMore.

(** X6 at two objects of unknown type, with [JSON.parse] as modelled. *)
Lemma unknown_events_are_ignored_sample :
  step JSON.parse sample_ToString
       (Suspended AwaitRead (sample_locals true) sample_state) (Chunk unknown_stream)
  = Suspended AwaitRead
      (set_buffer "" (sample_locals true)) sample_state.
Proof.
  exact (unknown_events_are_ignored JSON.parse sample_ToString unknown_stream
           (sample_locals true) sample_state
           (mkTokens [JS.Object [("type", JS.Str "ping"); ("data", JS.Str "x")];
                      JS.Object []] "" [])
           eq_refl eq_refl).
Defined.

(** * Further properties of the turn *)

Section TurnMore.

Import JSString StringFacts.

Variable JSON_parse : string -> Completion JS.Value.
Variable ToString : JS.Value -> Completion string.

Lemma last_message_snoc (s : State) (before : list Message) (msg : Message) :
  messages s = (before ++ [msg])%list -> last_message s = Some msg.
Proof.
  intros H. unfold last_message. rewrite H, map_app. simpl map. apply last_last.
Qed.

(** X8. [handleSendMessage] starts a turn exactly when there is a text
    or a file, no turn is in flight and there is a token.  Otherwise it
    returns with the transcript, the loading flag, the abort controller,
    the input and the files as they were (with nothing changed at all
    while a turn is in flight), so that a second send cannot disturb the
    turn in flight.  Files alone are enough to send. *)
Theorem send_is_guarded (v : View) (clock : Clock) (s : State) :
  match handleSendMessage v clock s with
  | Suspended at_ l s' =>
      can_send v s = true /\ at_ = AwaitFetch
      /\ isLoading s' = true /\ inputValue s' = "" /\ uploadedFiles s' = []
      /\ List.length (messages s') = List.length (messages s) + 2
  | Returned s' =>
      can_send v s = false
      /\ messages s' = messages s /\ updates s' = updates s
      /\ isLoading s' = isLoading s /\ abortControllerRef s' = abortControllerRef s
      /\ inputValue s' = inputValue s /\ uploadedFiles s' = uploadedFiles s
      /\ (isLoading s = true -> s' = s)
  end
  /\ forall (f : UploadedFile) (fs : list UploadedFile),
      can_send v (handleFileAdded (f :: fs) s) = negb (isLoading s) && has_token v.
Proof.
  split.
  - unfold handleSendMessage, can_send, has_token.
    destruct (blank (inputValue s) && (List.length (uploadedFiles s) =? 0)%nat);
      destruct (isLoading s) eqn:El; simpl; try (repeat split; auto; fail).
    destruct (token v) as [[|c tok]|]; simpl.
    + repeat split; auto. discriminate.
    + repeat split; auto. rewrite length_app, length_app. simpl. lia.
    + repeat split; auto. discriminate.
  - intros f fs. unfold can_send, handleFileAdded. simpl.
    rewrite length_app. simpl.
    replace (List.length (uploadedFiles s) + S (List.length fs) =? 0)%nat with false.
    + now rewrite andb_false_r.
    + symmetry. apply Nat.eqb_neq. lia.
Qed.

(** X9. When the stream ends, whatever has arrived, the turn returns
    with its assistant message no longer streaming, its reasoning marked
    complete, and the content, the reasoning and the metadata it had;
    no toast is shown. *)
Theorem stream_end_completes
        (v : View) (clock : Clock) (s0 : State) (events : list Event)
        (l : Locals) (s : State) :
  run JSON_parse ToString (handleSendMessage v clock s0) events = Suspended AwaitRead l s ->
  exists msg s',
    last_message s = Some msg
    /\ content msg = accumulatedContent l
    /\ step JSON_parse ToString (Suspended AwaitRead l s) Done = Returned s'
    /\ last_message s'
       = Some (mkMessage (id msg) (accumulatedContent l) assistant (timestamp msg)
                 (Some false) (reasoning msg) (Some true) (metadata msg))
    /\ toasts s' = toasts s
    /\ isLoading s' = false
    /\ abortControllerRef s' = None.
Proof.
  intros E.
  pose proof (run_streaming JSON_parse ToString events _
                (handleSendMessage_streaming v clock s0)) as H.
  rewrite E in H. destruct H as (_ & before & msg & Hm & Hid & Hr & Hst & Hc).
  exists msg. eexists.
  split; [exact (last_message_snoc _ _ _ Hm)|].
  split; [exact Hc|]. split; [reflexivity|].
  split; [|repeat split].
  erewrite last_message_snoc.
  2:{ cbn [on_done bindM local effect fst snd on_finally returns finish
           messages setMessages setIsLoading set_abortControllerRef].
      rewrite Hm. apply apply_patch_last. exact Hid. }
  unfold spread. simpl. now rewrite Hr, Hc.
Qed.

(** X10. A rejection of the pending promise ends the turn.  An
    [AbortError] does so silently: the transcript and the toasts are as
    they were, so that without a cancellation the assistant message is
    left as it was.  Any other error replaces the content of the
    assistant message, whatever was accumulated, with the fixed notice,
    clears its streaming flag, leaves its reasoning and its
    reasoning-complete flag as they were, and shows one error toast. *)
Theorem rejection_ends_the_turn
        (v : View) (clock : Clock) (s0 : State) (events : list Event)
        (at_ : Await) (l : Locals) (s : State) (error : Thrown) :
  run JSON_parse ToString (handleSendMessage v clock s0) events = Suspended at_ l s ->
  exists msg s',
    last_message s = Some msg
    /\ step JSON_parse ToString (Suspended at_ l s) (Rejects error) = Returned s'
    /\ isLoading s' = false
    /\ abortControllerRef s' = None
    /\ if is_AbortError error
       then messages s' = messages s /\ toasts s' = toasts s
       else last_message s'
            = Some (mkMessage (id msg) error_notice assistant (timestamp msg)
                      (Some false) (reasoning msg) (isReasoningComplete msg)
                      (metadata msg))
            /\ toasts s'
               = (toasts s
                  ++ [mkToast "Error" (errorMessage_of error) (Some "destructive")])%list.
Proof.
  intros E.
  pose proof (run_streaming JSON_parse ToString events _
                (handleSendMessage_streaming v clock s0)) as H.
  rewrite E in H. destruct H as (_ & before & msg & Hm & Hid & Hr & Hst & Hc).
  exists msg.
  change (step JSON_parse ToString (Suspended at_ l s) (Rejects error))
    with (throws error (l, s)).
  unfold throws, on_catch.
  destruct (is_AbortError error).
  - eexists. split; [exact (last_message_snoc _ _ _ Hm)|].
    split; [reflexivity|]. repeat split.
  - eexists. split; [exact (last_message_snoc _ _ _ Hm)|].
    split; [reflexivity|]. split; [reflexivity|]. split; [reflexivity|].
    split; [|reflexivity].
    erewrite last_message_snoc.
    2:{ cbn [bindM local effect fst snd on_finally returns
             messages setMessages setIsLoading set_abortControllerRef toast].
        rewrite Hm. apply apply_patch_last. exact Hid. }
    unfold spread. simpl. now rewrite Hr.
Qed.

End TurnMore.

(** X9 at the sample turn after its first chunk. *)
Lemma stream_end_completes_sample :
  exists l s,
    run JSON.parse sample_ToString
        (handleSendMessage (sample_view true) sample_clock sample_state) sample_events
    = Suspended AwaitRead l s
    /\ exists msg s',
        last_message s = Some msg
        /\ content msg = accumulatedContent l
        /\ step JSON.parse sample_ToString (Suspended AwaitRead l s) Done = Returned s'
        /\ last_message s'
           = Some (mkMessage (id msg) (accumulatedContent l) assistant (timestamp msg)
                     (Some false) (reasoning msg) (Some true) (metadata msg))
        /\ toasts s' = toasts s
        /\ isLoading s' = false
        /\ abortControllerRef s' = None.
Proof.
  assert (E : exists l s,
             run JSON.parse sample_ToString
                 (handleSendMessage (sample_view true) sample_clock sample_state)
                 sample_events
             = Suspended AwaitRead l s)
    by (vm_compute; eexists; eexists; reflexivity).
  destruct E as (l & s & E). exists l, s. split; [exact E|].
  exact (stream_end_completes JSON.parse sample_ToString _ _ _ _ _ _ E).
Defined.

(** X10 at the sample turn, the connection failing after its first
    chunk. *)
Lemma rejection_ends_the_turn_sample :
  exists at_ l s,
    run JSON.parse sample_ToString
        (handleSendMessage (sample_view true) sample_clock sample_state) sample_events
    = Suspended at_ l s
    /\ exists msg s',
        last_message s = Some msg
        /\ step JSON.parse sample_ToString (Suspended at_ l s)
                (Rejects (ErrorObject "TypeError" "Failed to fetch"))
           = Returned s'
        /\ isLoading s' = false
        /\ abortControllerRef s' = None
        /\ last_message s'
           = Some (mkMessage (id msg) error_notice assistant (timestamp msg)
                     (Some false) (reasoning msg) (isReasoningComplete msg)
                     (metadata msg))
        /\ toasts s'
           = (toasts s
              ++ [mkToast "Error"
                    "Unable to connect to server. Please check your connection."
                    (Some "destructive")])%list.
Proof.
  eexists. eexists. eexists. split; [reflexivity|].
  eapply (rejection_ends_the_turn JSON.parse sample_ToString
            (sample_view true) sample_clock sample_state sample_events
            _ _ _ (ErrorObject "TypeError" "Failed to fetch")).
  reflexivity.
Defined.

(** ** The error toast of a response that is not ok *)

Section HttpErrors.

Import JSString StringFacts.

Variable JSON_parse : string -> Completion JS.Value.
Variable ToString : JS.Value -> Completion string.

Lemma prefix_mismatch (needle hay t : string) :
  mismatch needle hay = true -> String.prefix needle (hay ++ t) = false.
Proof.
  revert hay; induction needle as [|a needle IH]; intros [|b hay] H;
    simpl in H; try discriminate.
  simpl. destruct (ascii_dec a b) as [->|Hne].
  - rewrite Ascii.eqb_refl in H. now apply IH.
  - reflexivity.
Qed.

Lemma includes_clear (hay needle t : string) :
  clear_of hay needle = true -> includes (hay ++ t) needle = includes t needle.
Proof.
  induction hay as [|c hay IH]; intros H; [reflexivity|].
  simpl in H. apply andb_prop in H. destruct H as [Hm Hc].
  change (includes (String c hay ++ t) needle)
    with (String.prefix needle (String c hay ++ t) || includes (hay ++ t) needle).
  rewrite (prefix_mismatch _ _ _ Hm). simpl. now apply IH.
Qed.

Lemma prefix_app (needle hay t : string) :
  String.prefix needle hay = true -> String.prefix needle (hay ++ t) = true.
Proof.
  revert hay; induction needle as [|a needle IH]; intros [|b hay] H;
    try discriminate.
  - now destruct t.
  - now destruct t.
  - simpl in H |- *. destruct (ascii_dec a b); [now apply IH | discriminate].
Qed.

Lemma includes_app_l (hay needle t : string) :
  includes hay needle = true -> includes (hay ++ t) needle = true.
Proof.
  induction hay as [|c hay IH]; intros H.
  - simpl in H. rewrite orb_false_r in H.
    destruct needle; [now destruct t | discriminate].
  - change (includes (String c hay ++ t) needle)
      with (String.prefix needle (String c hay ++ t) || includes (hay ++ t) needle).
    change (includes (String c hay) needle)
      with (String.prefix needle (String c hay) || includes hay needle) in H.
    apply orb_prop in H. destruct H as [H|H].
    + now rewrite (prefix_app _ _ t H).
    + rewrite (IH H). apply orb_true_r.
Qed.

Lemma includes_app_r (hay needle t : string) :
  includes t needle = true -> includes (hay ++ t) needle = true.
Proof.
  intros H. induction hay as [|c hay IH]; [exact H|].
  change (includes (String c hay ++ t) needle)
    with (String.prefix needle (String c hay ++ t) || includes (hay ++ t) needle).
  rewrite IH. apply orb_true_r.
Qed.

Lemma toasts_after_text_eq (status : Z) (errorText : string) (l : Locals) (s : State) :
  toasts_after_text JSON_parse ToString status errorText l s
  = (toasts s
     ++ [error_toast
           (errorMessage_of
              (ErrorObject "Error"
                 ("HTTP error! status: " ++ toString status ++ ", message: " ++ errorText)))])%list.
Proof. reflexivity. Qed.

(** X11. The error toast of a response that is not ok is chosen by
    searching the whole error message, status and body text, for
    [Failed to fetch], [401], [403], [404] and [500] in this order.  A
    body text that holds [Failed to fetch] is reported as a connection
    failure whatever the status.  Otherwise status 401 is reported as an
    authentication failure; 403, 404 and 500 are reported as such as
    long as the body text holds none of the numbers searched before. *)
Theorem http_error_toast (errorText : string) (l : Locals) (s : State) :
  let toasts_at status := toasts_after_text JSON_parse ToString status errorText l s in
  let shown description := (toasts s ++ [error_toast description])%list in
  (includes errorText "Failed to fetch" = true ->
   forall status,
     toasts_at status
     = shown "Unable to connect to server. Please check your connection.")
  /\ (includes errorText "Failed to fetch" = false ->
      toasts_at 401%Z = shown "Authentication failed. Please log in again."
      /\ (includes errorText "401" = false ->
          toasts_at 403%Z = shown "Access denied. Please check your permissions."
          /\ (includes errorText "403" = false ->
              toasts_at 404%Z
              = shown "Chat endpoint not found. Please check server configuration."
              /\ (includes errorText "404" = false ->
                  toasts_at 500%Z = shown "Server error. Please try again later.")))).
Proof.
  cbv zeta. split.
  - intros Hf status. rewrite toasts_after_text_eq. do 3 f_equal.
    unfold errorMessage_of.
    rewrite <- !append_assoc. now rewrite includes_app_r.
  - intros Hf.
    assert (Hclear : forall (status needle : string),
               clear_of ("HTTP error! status: " ++ status ++ ", message: ") needle = true ->
               includes ("HTTP error! status: " ++ status ++ ", message: " ++ errorText)
                        needle
               = includes errorText needle).
    { intros status needle H. rewrite <- (includes_clear _ _ errorText H).
      now rewrite !append_assoc. }
    assert (Hhas : forall (status needle : string),
               includes ("HTTP error! status: " ++ status ++ ", message: ") needle = true ->
               includes ("HTTP error! status: " ++ status ++ ", message: " ++ errorText)
                        needle
               = true).
    { intros status needle H.
      replace ("HTTP error! status: " ++ status ++ ", message: " ++ errorText)
        with (("HTTP error! status: " ++ status ++ ", message: ") ++ errorText)
        by now rewrite !append_assoc.
      now apply includes_app_l. }
    split; [|intros H401; split; [|intros H403; split; [|intros H404]]];
      rewrite toasts_after_text_eq; do 3 f_equal; unfold errorMessage_of.
    + change (toString 401) with "401".
      rewrite (Hclear "401" "Failed to fetch"), Hf by reflexivity.
      now rewrite (Hhas "401" "401") by reflexivity.
    + change (toString 403) with "403".
      rewrite (Hclear "403" "Failed to fetch"), Hf by reflexivity.
      rewrite (Hclear "403" "401"), H401 by reflexivity.
      now rewrite (Hhas "403" "403") by reflexivity.
    + change (toString 404) with "404".
      rewrite (Hclear "404" "Failed to fetch"), Hf by reflexivity.
      rewrite (Hclear "404" "401"), H401 by reflexivity.
      rewrite (Hclear "404" "403"), H403 by reflexivity.
      now rewrite (Hhas "404" "404") by reflexivity.
    + change (toString 500) with "500".
      rewrite (Hclear "500" "Failed to fetch"), Hf by reflexivity.
      rewrite (Hclear "500" "401"), H401 by reflexivity.
      rewrite (Hclear "500" "403"), H403 by reflexivity.
      rewrite (Hclear "500" "404"), H404 by reflexivity.
      now rewrite (Hhas "500" "500") by reflexivity.
Qed.

End HttpErrors.

(** A body text [Not Found] under status 404, and a body text that
    reports a failed fetch under status 200. *)
Lemma http_error_toast_sample :
  toasts_after_text JSON.parse sample_ToString 404 "Not Found"
                    (sample_locals false) sample_state
  = [error_toast "Chat endpoint not found. Please check server configuration."]
  /\ toasts_after_text JSON.parse sample_ToString 200 "TypeError: Failed to fetch"
                       (sample_locals false) sample_state
     = [error_toast "Unable to connect to server. Please check your connection."].
Proof.
  split.
  - destruct (http_error_toast JSON.parse sample_ToString "Not Found"
                               (sample_locals false) sample_state) as [_ H].
    destruct (H eq_refl) as [_ H1].
    destruct (H1 eq_refl) as [_ H2].
    destruct (H2 eq_refl) as [H3 _].
    exact H3.
  - destruct (http_error_toast JSON.parse sample_ToString "TypeError: Failed to fetch"
                               (sample_locals false) sample_state) as [H _].
    exact (H eq_refl 200%Z).
Defined.

(** ** The chunks of a turn *)

Section Chunks.

Import JSString StringFacts.

Variable JSON_parse : string -> Completion JS.Value.
Variable ToString : JS.Value -> Completion string.

Lemma for_of_app {X : Type} (f : X -> M unit) (a b : list X) :
  forall m : Mem,
    for_of (a ++ b) f m
    = match for_of a f m with
      | (Normal _, m') => for_of b f m'
      | (Throw e, m') => (Throw e, m')
      end.
Proof.
  induction a as [|x a IH]; intros m; [reflexivity|].
  simpl. unfold bindM. destruct (f x m) as [[[]|e] m1]; [apply IH | reflexivity].
Qed.

Lemma dispatch_set_buffer (v : JS.Value) (b : string) (l : Locals) (s : State) :
  dispatch ToString v (set_buffer b l, s)
  = match dispatch ToString v (l, s) with
    | (r, (l', s')) => (r, (set_buffer b l', s'))
    end.
Proof.
  destruct l as [i rm ac ar ph b0].
  unfold dispatch, bindM, lift, local, assign, effect, ret, set_buffer,
    set_accumulatedContent, set_accumulatedReasoning, set_isReasoningPhase.
  cbn [fst snd aiMessageId isReasoningModel accumulatedContent accumulatedReasoning
       isReasoningPhase buffer].
  repeat (match goal with
          | |- context [match ?x with _ => _ end] =>
              lazymatch type of x with
              | prod _ _ => fail
              | _ => destruct x
              end
          end;
          cbn [fst snd aiMessageId isReasoningModel accumulatedContent
               accumulatedReasoning isReasoningPhase buffer];
          try reflexivity).
Qed.

Lemma for_of_set_buffer (parsed : list JS.Value) (b : string) :
  forall (l : Locals) (s : State),
    for_of parsed (dispatch ToString) (set_buffer b l, s)
    = match for_of parsed (dispatch ToString) (l, s) with
      | (r, (l', s')) => (r, (set_buffer b l', s'))
      end.
Proof.
  induction parsed as [|v parsed IH]; intros l s.
  - reflexivity.
  - simpl. unfold bindM. rewrite dispatch_set_buffer.
    destruct (dispatch ToString v (l, s)) as [[[]|e] [l1 s1]].
    + apply IH.
    + reflexivity.
Qed.

Lemma throws_set_buffer (error : Thrown) (b : string) (l : Locals) (s : State) :
  throws error (set_buffer b l, s) = throws error (l, s).
Proof.
  unfold throws, on_catch. destruct (is_AbortError error); reflexivity.
Qed.

Lemma on_chunk_tokens (chunk : string) (l : Locals) (s : State) (tk : Tokens JS.Value) :
  parseJSONStream JSON_parse (buffer l ++ chunk) = Normal tk ->
  on_chunk JSON_parse ToString chunk (l, s)
  = for_of (tk_parsed tk) (dispatch ToString) (set_buffer (tk_remaining tk) l, s).
Proof.
  intros H. unfold on_chunk, bindM, lift, local, assign. cbn [fst snd].
  change (buffer (set_buffer (buffer l ++ chunk) l)) with (buffer l ++ chunk).
  rewrite H. reflexivity.
Qed.

Lemma step_returned_chunk (t : Turn) (text : string) :
  (exists s, t = Returned s) -> step JSON_parse ToString t (Chunk text) = t.
Proof. intros [s ->]. reflexivity. Qed.

(** Two chunks in a row act as the one chunk that joins them. *)
Lemma chunks_join (l : Locals) (s : State) (a b : string) :
  step JSON_parse ToString
       (step JSON_parse ToString (Suspended AwaitRead l s) (Chunk a)) (Chunk b)
  = step JSON_parse ToString (Suspended AwaitRead l s) (Chunk (a ++ b)).
Proof.
  destruct (parseJSONStream_chunk JSON_parse (buffer l ++ a) b)
    as (ta & tb & Ha & Hb & Hab).
  rewrite append_assoc in Hab.
  cbn [step].
  rewrite (on_chunk_tokens a l s ta Ha), (on_chunk_tokens (a ++ b) l s _ Hab).
  cbn [tk_parsed tk_remaining].
  rewrite for_of_app.
  change (set_buffer (tk_remaining tb) l)
    with (set_buffer (tk_remaining tb) (set_buffer (tk_remaining ta) l)).
  rewrite (for_of_set_buffer (tk_parsed ta) (tk_remaining tb)
                             (set_buffer (tk_remaining ta) l) s).
  destruct (for_of (tk_parsed ta) (dispatch ToString) (set_buffer (tk_remaining ta) l, s))
    as [r [l1 s1]] eqn:E.
  pose proof (for_of_buffer ToString _ _ _ _ _ _ E) as Hbuf.
  change (buffer (set_buffer (tk_remaining ta) l)) with (tk_remaining ta) in Hbuf.
  destruct r as [[]|e].
  - cbn [resume step].
    assert (Hb' : parseJSONStream JSON_parse (buffer l1 ++ b) = Normal tb)
      by now rewrite Hbuf.
    now rewrite (on_chunk_tokens b l1 s1 tb Hb').
  - cbn [resume]. rewrite throws_set_buffer.
    apply step_returned_chunk, throws_returned.
Qed.

Lemma chunks_run (chunks : list string) :
  forall (l : Locals) (s : State) (text : string),
    run JSON_parse ToString
        (step JSON_parse ToString (Suspended AwaitRead l s) (Chunk text))
        (map Chunk chunks)
    = step JSON_parse ToString (Suspended AwaitRead l s)
           (Chunk (text ++ concat chunks)).
Proof.
  induction chunks as [|chunk chunks IH]; intros l s text.
  - change (concat []) with "". now rewrite append_nil_r.
  - rewrite concat_cons, <- append_assoc, <- IH.
    change (map Chunk (chunk :: chunks)) with (Chunk chunk :: map Chunk chunks).
    unfold run at 1. cbn [fold_left]. now rewrite chunks_join.
Qed.

(** X12. The chunks of the response body act on the turn as the one
    chunk that joins them: how the network cuts the stream changes
    neither the transcript, nor the accumulated texts, nor the text held
    back, nor whether and how the turn fails. *)
Theorem chunks_act_as_one (l : Locals) (s : State) (chunk : string) (chunks : list string) :
  run JSON_parse ToString (Suspended AwaitRead l s) (map Chunk (chunk :: chunks))
  = step JSON_parse ToString (Suspended AwaitRead l s)
         (Chunk (concat (chunk :: chunks))).
Proof.
  rewrite concat_cons. rewrite <- chunks_run. reflexivity.
Qed.

End Chunks.

(** ** What a turn leaves alone *)

Section Frame.

Variable JSON_parse : string -> Completion JS.Value.
Variable ToString : JS.Value -> Completion string.

Lemma map_mapi {X Y : Type} (h : X -> Y) (f : X -> nat -> X) (l : list X) :
  (forall x k, h (f x k) = h x) -> forall k, map h (mapi f k l) = map h l.
Proof.
  intros H. induction l as [|x l IH]; intros k; simpl; [reflexivity|].
  now rewrite H, IH.
Qed.

Lemma length_mapi {X Y : Type} (f : X -> nat -> Y) (l : list X) :
  forall k, List.length (mapi f k l) = List.length l.
Proof. induction l as [|x l IH]; intros k; simpl; [reflexivity | now rewrite IH]. Qed.

Lemma nth_error_mapi {X Y : Type} (f : X -> nat -> Y) (l : list X) :
  forall j k, nth_error (mapi f j l) k = option_map (fun x => f x (j + k)) (nth_error l k).
Proof.
  induction l as [|x l IH]; intros j [|k]; simpl; try reflexivity.
  - now rewrite Nat.add_0_r.
  - rewrite IH. now rewrite Nat.add_succ_r.
Qed.

Lemma removelast_map {X Y : Type} (f : X -> Y) (l : list X) :
  removelast (map f l) = map f (removelast l).
Proof.
  induction l as [|x l IH]; [reflexivity|].
  destruct l as [|y l]; [reflexivity|].
  change (f x :: removelast (map f (y :: l)) = f x :: map f (removelast (y :: l))).
  now rewrite IH.
Qed.

Lemma removelast_mapi {X Y : Type} (f : X -> nat -> Y) (l : list X) :
  forall k, removelast (mapi f k l) = mapi f k (removelast l).
Proof.
  induction l as [|x l IH]; intros k; [reflexivity|].
  destruct l as [|y l]; [reflexivity|].
  change (f x k :: removelast (mapi f (S k) (y :: l))
          = f x k :: mapi f (S k) (removelast (y :: l))).
  now rewrite IH.
Qed.

Lemma count_streaming_cons (msg : Message) (msgs : list Message) :
  count_streaming (msg :: msgs)
  = (if truthy (isStreaming msg) then 1 else 0) + count_streaming msgs.
Proof. unfold count_streaming. simpl. now destruct (truthy (isStreaming msg)). Qed.

Lemma count_streaming_app (a b : list Message) :
  count_streaming (a ++ b) = count_streaming a + count_streaming b.
Proof.
  unfold count_streaming. now rewrite filter_app, length_app.
Qed.

Lemma count_streaming_map (f : Message -> Message) (msgs : list Message) :
  (forall msg, truthy (isStreaming (f msg)) = true -> truthy (isStreaming msg) = true) ->
  count_streaming (map f msgs) <= count_streaming msgs.
Proof.
  intros H. induction msgs as [|msg msgs IH]; [apply Nat.le_refl|].
  simpl map. rewrite !count_streaming_cons.
  specialize (H msg).
  destruct (truthy (isStreaming (f msg))), (truthy (isStreaming msg)); lia.
Qed.

Lemma count_streaming_mapi (f : Message -> nat -> Message) (msgs : list Message) :
  (forall msg k, truthy (isStreaming (f msg k)) = true -> truthy (isStreaming msg) = true) ->
  forall k, count_streaming (mapi f k msgs) <= count_streaming msgs.
Proof.
  intros H. induction msgs as [|msg msgs IH]; intros k; [apply Nat.le_refl|].
  simpl mapi. rewrite !count_streaming_cons.
  specialize (H msg k). specialize (IH (S k)).
  destruct (truthy (isStreaming (f msg k))), (truthy (isStreaming msg)); lia.
Qed.

Lemma spread_streaming (msg : Message) (fields : Partial) :
  p_isStreaming fields <> Some true ->
  truthy (isStreaming (spread msg fields)) = true -> truthy (isStreaming msg) = true.
Proof.
  intros H. unfold spread. simpl.
  destruct (p_isStreaming fields) as [[|]|]; [now elim H | discriminate | auto].
Qed.

Lemma cancelled_streaming (msg : Message) (b : bool) :
  truthy (isStreaming (if b then cancelled msg else msg)) = true ->
  truthy (isStreaming msg) = true.
Proof. destruct b; [discriminate | auto]. Qed.

(** *** What follows from [benign] *)

Lemma benign_shape (i : string) (s s' : State) :
  benign i s s' ->
  map id (messages s') = map id (messages s)
  /\ map role (messages s') = map role (messages s)
  /\ map timestamp (messages s') = map timestamp (messages s)
  /\ inputValue s' = inputValue s
  /\ uploadedFiles s' = uploadedFiles s
  /\ isUserScrolled s' = isUserScrolled s.
Proof.
  induction 1 as [|s' fields _ IH _|s' _ IH|s' t _ IH|s' b _ IH|s' r _ IH];
    try exact IH.
  - now repeat split.
  - destruct IH as (Hid & Hrole & Htime & Hrest).
    cbn [messages setMessages apply inputValue uploadedFiles isUserScrolled].
    rewrite !map_map. rewrite <- Hid, <- Hrole, <- Htime.
    split; [|split; [|split; [|exact Hrest]]];
      apply map_ext; intros msg; now destruct (id msg =? i)%string.
  - destruct IH as (Hid & Hrole & Htime & Hrest).
    cbn [messages setMessages apply inputValue uploadedFiles isUserScrolled].
    rewrite <- Hid, <- Hrole, <- Htime.
    split; [|split; [|split; [|exact Hrest]]];
      apply map_mapi; intros msg k;
      now destruct ((k =? List.length (messages s') - 1)%nat
                    && Role_eqb (role msg) assistant && truthy (isStreaming msg)).
Qed.

Lemma benign_length (i : string) (s s' : State) :
  benign i s s' -> List.length (messages s') = List.length (messages s).
Proof.
  intros H. apply benign_shape in H. destruct H as (Hid & _).
  now rewrite <- (length_map id (messages s')), Hid, length_map.
Qed.

Lemma benign_others (i : string) (s s' : State) :
  benign i s s' ->
  forall (k : nat) (msg : Message),
    nth_error (messages s) k = Some msg ->
    id msg <> i ->
    S k < List.length (messages s) ->
    nth_error (messages s') k = Some msg.
Proof.
  induction 1 as [|s' fields Hb IH _|s' Hb IH|s' t _ IH|s' b _ IH|s' r _ IH];
    intros k msg Hk Hid Hlt; try (now apply IH).
  - exact Hk.
  - cbn [messages setMessages apply]. rewrite nth_error_map, (IH k msg Hk Hid Hlt).
    simpl. apply String.eqb_neq in Hid. now rewrite Hid.
  - cbn [messages setMessages apply]. rewrite nth_error_mapi, (IH k msg Hk Hid Hlt).
    simpl. rewrite (benign_length _ _ _ Hb).
    replace (k =? List.length (messages s) - 1)%nat with false; [reflexivity|].
    symmetry. apply Nat.eqb_neq. lia.
Qed.

Lemma benign_count (i : string) (s s' : State) :
  benign i s s' ->
  count_streaming (removelast (messages s')) <= count_streaming (removelast (messages s))
  /\ count_streaming (messages s') <= count_streaming (messages s).
Proof.
  induction 1 as [|s' fields _ IH Hf|s' _ IH|s' t _ IH|s' b _ IH|s' r _ IH];
    try exact IH.
  - split; apply Nat.le_refl.
  - destruct IH as [IH1 IH2].
    cbn [messages setMessages apply]. rewrite removelast_map.
    split; (eapply Nat.le_trans; [apply count_streaming_map|eassumption]);
      intros msg; (destruct (id msg =? i)%string; [now apply spread_streaming | auto]).
  - destruct IH as [IH1 IH2].
    cbn [messages setMessages apply]. rewrite removelast_mapi.
    split; (eapply Nat.le_trans; [apply count_streaming_mapi|eassumption]);
      intros msg k; apply cancelled_streaming.
Qed.

(** *** A turn does only what is [benign] *)

Lemma dispatch_benign (parsedChunk : JS.Value) (l l' : Locals) (s0 s s' : State)
      (r : Completion unit) :
  benign (aiMessageId l) s0 s ->
  dispatch ToString parsedChunk (l, s) = (r, (l', s')) ->
  benign (aiMessageId l) s0 s' /\ aiMessageId l' = aiMessageId l.
Proof.
  intros H E. unfold dispatch, bindM, lift, local, assign, effect, ret in E.
  cbn [fst snd] in E.
  repeat (match type of E with
          | context [match ?x with _ => _ end] =>
              lazymatch type of x with
              | prod _ _ => fail
              | _ => destruct x
              end
          end; cbn [fst snd] in E);
    injection E as _ <- <-; (split; [|reflexivity]); benign_steps.
Qed.

Lemma for_of_benign (parsed : list JS.Value) :
  forall (l l' : Locals) (s0 s s' : State) (r : Completion unit),
    benign (aiMessageId l) s0 s ->
    for_of parsed (dispatch ToString) (l, s) = (r, (l', s')) ->
    benign (aiMessageId l) s0 s' /\ aiMessageId l' = aiMessageId l.
Proof.
  induction parsed as [|parsedChunk parsed IH]; intros l l' s0 s s' r H E; simpl in E.
  - unfold ret in E. injection E as _ <- <-. now split.
  - unfold bindM in E.
    destruct (dispatch ToString parsedChunk (l, s)) as [r1 [l1 s1]] eqn:E1.
    apply (dispatch_benign _ _ _ _ _ _ _ H) in E1. destruct E1 as [H1 Hi].
    destruct r1 as [[]|err].
    + rewrite <- Hi in H1. apply (IH _ _ _ _ _ _ H1) in E.
      rewrite Hi in E. exact E.
    + injection E as _ <- <-. now split.
Qed.

Lemma on_chunk_benign (chunk : string) (l l' : Locals) (s0 s s' : State)
      (r : Completion unit) :
  benign (aiMessageId l) s0 s ->
  on_chunk JSON_parse ToString chunk (l, s) = (r, (l', s')) ->
  benign (aiMessageId l) s0 s' /\ aiMessageId l' = aiMessageId l.
Proof.
  intros H E. unfold on_chunk, bindM, lift, local, assign in E. cbn [fst snd] in E.
  destruct (parseJSONStream JSON_parse _) as [tk|err]; cbn [fst snd] in E.
  - exact (for_of_benign
             _ (set_buffer (tk_remaining tk) (set_buffer (buffer l ++ chunk) l))
             _ _ _ _ _ H E).
  - injection E as _ <- <-. now split.
Qed.

Lemma handleCancelRequest_benign (i : string) (s0 s : State) :
  benign i s0 s -> benign i s0 (handleCancelRequest s).
Proof.
  intros H. unfold handleCancelRequest.
  destruct (abortControllerRef s); benign_steps.
Qed.

Lemma returns_benign (l : Locals) (s0 s : State) :
  benign (aiMessageId l) s0 s -> benign (aiMessageId l) s0 (state_of (returns (l, s))).
Proof.
  intros H. unfold returns, on_finally, bindM, effect. cbn [fst snd state_of].
  benign_steps.
Qed.

Lemma throws_benign (error : Thrown) (l : Locals) (s0 s : State) :
  benign (aiMessageId l) s0 s ->
  benign (aiMessageId l) s0 (state_of (throws error (l, s))).
Proof.
  intros H. unfold throws, on_catch.
  destruct (is_AbortError error);
    unfold returns, on_finally, bindM, effect, local, ret; cbn [fst snd state_of];
    benign_steps.
Qed.

Lemma on_done_benign (l : Locals) (s0 s : State) :
  benign (aiMessageId l) s0 s ->
  benign (aiMessageId l) s0 (state_of (finish (on_done (l, s)))).
Proof.
  intros H.
  unfold finish, on_done, returns, on_finally, bindM, effect, local, ret.
  cbn [fst snd state_of]. benign_steps.
Qed.

Lemma turn_benign_returned (i : string) (s0 : State) (t : Turn) :
  benign i s0 (state_of t) -> (exists s, t = Returned s) -> turn_benign i s0 t.
Proof. intros H [s ->]. now split. Qed.

Lemma step_benign (i : string) (s0 : State) (t : Turn) (e : Event) :
  turn_benign i s0 t -> turn_benign i s0 (step JSON_parse ToString t e).
Proof.
  destruct t as [at_ l s|s]; intros [H Hi]; cbn [state_of] in H.
  - subst i. unfold step.
    destruct e as [ok status body|errorText|text| |error|].
    + destruct at_; try (now split).
      destruct ok; [|now split]. destruct body; [now split|].
      apply turn_benign_returned; [now apply on_done_benign | apply finish_returned].
    + destruct at_; try (now split).
      apply turn_benign_returned; [now apply throws_benign | apply throws_returned].
    + destruct at_; try (now split).
      destruct (on_chunk JSON_parse ToString text (l, s)) as [r [l' s']] eqn:E.
      apply (on_chunk_benign _ _ _ _ _ _ _ H) in E. destruct E as [H' Hi].
      destruct r as [[]|error]; [now split|].
      cbn [resume]. rewrite <- Hi in H' |- *.
      apply turn_benign_returned; [now apply throws_benign | apply throws_returned].
    + destruct at_; try (now split).
      apply turn_benign_returned; [now apply on_done_benign | apply finish_returned].
    + apply turn_benign_returned; [now apply throws_benign | apply throws_returned].
    + destruct (abortControllerRef s) eqn:Ea.
      * apply turn_benign_returned; [|apply throws_returned].
        apply throws_benign. now apply handleCancelRequest_benign.
      * split; [|reflexivity]. cbn [state_of]. now apply handleCancelRequest_benign.
  - destruct e; try (now split).
    split; [|exact I]. cbn [step state_of]. now apply handleCancelRequest_benign.
Qed.

Lemma run_benign (i : string) (s0 : State) (events : list Event) :
  forall t, turn_benign i s0 t -> turn_benign i s0 (run JSON_parse ToString t events).
Proof.
  induction events as [|e events IH]; intros t H; simpl; [exact H|].
  apply IH. now apply step_benign.
Qed.

Lemma suspended_benign (at_ : Await) (l : Locals) (s : State) (events : list Event) :
  benign (aiMessageId l) s
         (state_of (run JSON_parse ToString (Suspended at_ l s) events)).
Proof.
  apply (run_benign (aiMessageId l) s events (Suspended at_ l s)).
  split; [apply benign_same | reflexivity].
Qed.

End Frame.

Section FrameTheorems.

Variable JSON_parse : string -> Completion JS.Value.
Variable ToString : JS.Value -> Completion string.

Lemma handleSendMessage_cleared (v : View) (clock : Clock) (s0 : State)
      (at_ : Await) (l : Locals) (s : State) :
  handleSendMessage v clock s0 = Suspended at_ l s ->
  inputValue s = "" /\ uploadedFiles s = [] /\ isUserScrolled s = false.
Proof.
  unfold handleSendMessage.
  destruct (_ || _); [discriminate|].
  destruct (token v) as [[|c tok]|]; try discriminate.
  intros E. injection E as <- <- <-. now repeat split.
Qed.

(** X13. A turn that gets to its request adds exactly two messages to
    the transcript, the user's and then the assistant's, with the ids
    and dates read off the clock, and clears the input and the
    attachments.  Whatever comes then, chunks, the end of the stream, an
    error or a cancellation, adds, removes or reorders no message, changes
    no id, role or date, and leaves the input and the attachments alone. *)
Theorem turn_adds_two_messages (v : View) (clock : Clock) (s0 : State)
        (at_ : Await) (l : Locals) (s : State) (events : list Event) :
  handleSendMessage v clock s0 = Suspended at_ l s ->
  let s' := state_of (run JSON_parse ToString (handleSendMessage v clock s0) events) in
  map id (messages s')
  = (map id (messages s0) ++ [toString (now_user clock); toString (now_ai clock + 1)])%list
  /\ map role (messages s') = (map role (messages s0) ++ [user; assistant])%list
  /\ map timestamp (messages s')
     = (map timestamp (messages s0) ++ [date_user clock; date_ai clock])%list
  /\ inputValue s' = ""
  /\ uploadedFiles s' = []
  /\ isUserScrolled s' = false.
Proof.
  intros E. cbv zeta. rewrite E.
  destruct (benign_shape _ _ _ (suspended_benign JSON_parse ToString at_ l s events))
    as (Hid & Hrole & Htime & Hin & Hup & Hsc).
  destruct (handleSendMessage_started _ _ _ _ _ _ E) as (_ & _ & Hm & _).
  destruct (handleSendMessage_cleared _ _ _ _ _ _ E) as (Hin0 & Hup0 & Hsc0).
  rewrite Hid, Hrole, Htime, Hin, Hup, Hsc, Hm, !map_app.
  now repeat split.
Qed.

(** X14. While a turn runs and after it, a message that is not the last
    one and whose id is not the id of the turn's assistant message is
    left exactly as it was. *)
Theorem other_messages_are_untouched (at_ : Await) (l : Locals) (s : State)
        (events : list Event) (k : nat) (msg : Message) :
  nth_error (messages s) k = Some msg ->
  id msg <> aiMessageId l ->
  S k < List.length (messages s) ->
  nth_error (messages (state_of (run JSON_parse ToString (Suspended at_ l s) events))) k
  = Some msg.
Proof.
  intros Hk Hid Hlt.
  exact (benign_others _ _ _ (suspended_benign JSON_parse ToString at_ l s events)
                       k msg Hk Hid Hlt).
Qed.

End FrameTheorems.

(** The sample turn, and the user's message in it. *)
Lemma turn_adds_two_messages_sample :
  let s' := state_of (run JSON.parse sample_ToString
                          (handleSendMessage (sample_view false) sample_clock sample_state)
                          sample_events) in
  map id (messages s') = ["1000"; "1002"]
  /\ map role (messages s') = [user; assistant]
  /\ map timestamp (messages s') = [1000%Z; 1001%Z]
  /\ inputValue s' = ""
  /\ uploadedFiles s' = []
  /\ isUserScrolled s' = false.
Proof.
  assert (E : exists at_ l s,
             handleSendMessage (sample_view false) sample_clock sample_state
             = Suspended at_ l s)
    by (vm_compute; eexists; eexists; eexists; reflexivity).
  destruct E as (at_ & l & s & E).
  exact (turn_adds_two_messages JSON.parse sample_ToString (sample_view false) sample_clock
                                sample_state at_ l s sample_events E).
Defined.

Lemma other_messages_are_untouched_sample :
  nth_error
    (messages
       (state_of
          (run JSON.parse sample_ToString
               (Suspended AwaitFetch (sample_locals false)
                          (mkState (sample_transcript
                                    ++ [mkMessage "1002" "" assistant 1001 (Some true) None
                                          (Some false) JS.Undefined])
                                   [] "" true [] false (Some new_AbortController) []))
               (sample_events ++ [Cancel]))))
    1
  = Some (mkMessage "2" "hello" assistant 2 (Some false) None (Some true) JS.Undefined).
Proof.
  apply other_messages_are_untouched.
  - reflexivity.
  - simpl. discriminate.
  - simpl. lia.
Defined.

(** ** The streaming flag *)

Section Spinner.

Variable JSON_parse : string -> Completion JS.Value.
Variable ToString : JS.Value -> Completion string.

(** [ToString] throws no [AbortError]. *)
Hypothesis ToString_no_abort :
  forall (value : JS.Value) (error : Thrown),
    ToString value = Throw error -> is_AbortError error = false.

Lemma get_no_abort (value : JS.Value) (key : string) (error : Thrown) :
  JS.get value key = Throw error -> is_AbortError error = false.
Proof. destruct value; intros E; try discriminate; now injection E as <-. Qed.

Lemma plus_no_abort (acc : string) (value : JS.Value) (error : Thrown) :
  plus ToString acc value = Throw error -> is_AbortError error = false.
Proof.
  unfold plus. destruct value; try discriminate;
    (destruct (ToString _) as [str|err] eqn:E; simpl; [discriminate|];
     intros E'; injection E' as <-; exact (ToString_no_abort _ _ E)).
Qed.

Lemma dispatch_no_abort (parsedChunk : JS.Value) (m m' : Mem) (error : Thrown) :
  dispatch ToString parsedChunk m = (Throw error, m') -> is_AbortError error = false.
Proof.
  intros E. unfold dispatch, bindM, lift, local, assign, effect, ret in E.
  cbn [fst snd] in E.
  repeat (match type of E with
          | context [match ?x with _ => _ end] =>
              lazymatch type of x with
              | prod _ _ => fail
              | _ => let Ex := fresh "Ex" in destruct x eqn:Ex
              end
          end; cbn [fst snd] in E);
    try discriminate; injection E as <- _;
    eauto using get_no_abort, plus_no_abort.
Qed.

Lemma for_of_no_abort (parsed : list JS.Value) :
  forall (m m' : Mem) (error : Thrown),
    for_of parsed (dispatch ToString) m = (Throw error, m') ->
    is_AbortError error = false.
Proof.
  induction parsed as [|parsedChunk parsed IH]; intros m m' error E; simpl in E.
  - discriminate.
  - unfold bindM in E.
    destruct (dispatch ToString parsedChunk m) as [[[]|err] m1] eqn:E1.
    + eapply IH; eassumption.
    + injection E as <- _. eapply dispatch_no_abort; eassumption.
Qed.

Lemma on_chunk_no_abort (chunk : string) (m m' : Mem) (error : Thrown) :
  on_chunk JSON_parse ToString chunk m = (Throw error, m') ->
  is_AbortError error = false.
Proof.
  unfold on_chunk, bindM, lift, local, assign. cbn [fst snd].
  rewrite parseJSONStream_sweep. cbv zeta. cbn [fst snd].
  apply for_of_no_abort.
Qed.

Lemma count_streaming_patch (i : string) (fields : Partial) (msgs : list Message) :
  p_isStreaming fields <> Some true ->
  count_streaming (apply (Patch i fields) msgs) <= count_streaming msgs.
Proof.
  intros H. apply count_streaming_map. intros msg.
  destruct (id msg =? i)%string; [now apply spread_streaming | auto].
Qed.

Lemma count_streaming_CancelLast (msgs : list Message) :
  count_streaming (apply CancelLast msgs) <= count_streaming msgs.
Proof.
  apply count_streaming_mapi. intros msg k. apply cancelled_streaming.
Qed.

(** The patch that ends the streaming leaves no message streaming. *)
Lemma patch_stops (l : Locals) (s : State) (fields : Partial) :
  streaming l s ->
  count_streaming (removelast (messages s)) = 0 ->
  p_isStreaming fields = Some false ->
  count_streaming (apply (Patch (aiMessageId l) fields) (messages s)) = 0.
Proof.
  intros (_ & before & msg & Hm & Hid & _) Hc Hf.
  rewrite Hm in Hc |- *. rewrite removelast_last in Hc.
  rewrite (apply_patch_last _ _ _ _ Hid), count_streaming_app.
  assert (H1 : count_streaming (apply (Patch (aiMessageId l) fields) before) <= 0).
  { rewrite <- Hc. apply count_streaming_patch. rewrite Hf. discriminate. }
  assert (H2 : count_streaming [spread msg fields] = 0).
  { unfold count_streaming, spread. simpl. now rewrite Hf. }
  lia.
Qed.

Lemma throws_spinner (error : Thrown) (l : Locals) (s : State) :
  is_AbortError error = false ->
  streaming l s ->
  count_streaming (removelast (messages s)) = 0 ->
  spinner (throws error (l, s)).
Proof.
  intros He Hs Hc. unfold throws, on_catch. rewrite He.
  unfold returns, on_finally, bindM, effect, local, ret. cbn [fst snd spinner].
  cbn [messages set_abortControllerRef setIsLoading setMessages toast].
  now apply patch_stops.
Qed.

Lemma on_done_spinner (l : Locals) (s : State) :
  streaming l s ->
  count_streaming (removelast (messages s)) = 0 ->
  spinner (finish (on_done (l, s))).
Proof.
  intros Hs Hc.
  unfold finish, on_done, returns, on_finally, bindM, effect, local, ret.
  cbn [fst snd spinner].
  cbn [messages set_abortControllerRef setIsLoading setMessages].
  now apply patch_stops.
Qed.

Lemma cancel_spinner (l : Locals) (s : State) :
  streaming l s ->
  count_streaming (removelast (messages s)) = 0 ->
  spinner (throws AbortError (l, handleCancelRequest s)).
Proof.
  intros (Hne & before & msg & Hm & _ & Hrole & Hstr & _) Hc.
  rewrite Hm, removelast_last in Hc.
  unfold handleCancelRequest.
  destruct (abortControllerRef s); [|contradiction].
  change (throws AbortError ?m) with (returns m).
  unfold returns, on_finally, bindM, effect. cbn [fst snd spinner].
  cbn [messages set_abortControllerRef setIsLoading setMessages toast].
  rewrite Hm, (apply_CancelLast _ _ Hrole Hstr), count_streaming_app, Hc.
  reflexivity.
Qed.

Lemma step_spinner (t : Turn) (e : Event) :
  no_stray_abort e = true ->
  spinner t -> spinner (step JSON_parse ToString t e).
Proof.
  intros He. destruct t as [at_ l s|s]; intros H.
  - destruct H as [Hs Hc]. unfold step.
    destruct e as [ok status body|errorText|text| |error|].
    + destruct at_; try (now split).
      destruct ok; [|now split]. destruct body; [now split|].
      now apply on_done_spinner.
    + destruct at_; try (now split). now apply throws_spinner.
    + destruct at_; try (now split).
      destruct (on_chunk JSON_parse ToString text (l, s)) as [r [l' s']] eqn:E.
      pose proof (on_chunk_streaming JSON_parse ToString _ _ _ _ _ _ Hs E) as Hs'.
      destruct (on_chunk_benign JSON_parse ToString _ _ _ s _ _ _ (benign_same _ _) E)
        as [Hb _].
      apply benign_count in Hb. destruct Hb as [Hb _].
      assert (Hc' : count_streaming (removelast (messages s')) = 0) by lia.
      destruct r as [[]|error]; [now split|].
      cbn [resume]. apply throws_spinner; auto.
      eapply on_chunk_no_abort; eassumption.
    + destruct at_; try (now split). now apply on_done_spinner.
    + apply throws_spinner; auto.
      simpl in He. now destruct (is_AbortError error).
    + destruct (abortControllerRef s) eqn:Ea.
      * now apply cancel_spinner.
      * destruct Hs as [Hne _]. contradiction.
  - destruct e; try exact H.
    cbn [step spinner] in H |- *. unfold handleCancelRequest.
    destruct (abortControllerRef s); [|exact H].
    cbn [messages set_abortControllerRef setIsLoading setMessages toast].
    pose proof (count_streaming_CancelLast (messages s)). lia.
Qed.

Lemma run_spinner (events : list Event) :
  forallb no_stray_abort events = true ->
  forall t, spinner t -> spinner (run JSON_parse ToString t events).
Proof.
  induction events as [|e events IH]; intros He t H; simpl; [exact H|].
  simpl in He. apply andb_prop in He. destruct He as [He Hes].
  apply IH; [exact Hes|]. now apply step_spinner.
Qed.

Lemma handleSendMessage_spinner (v : View) (clock : Clock) (s0 : State) :
  count_streaming (messages s0) = 0 -> spinner (handleSendMessage v clock s0).
Proof.
  intros H0.
  pose proof (handleSendMessage_streaming v clock s0) as Hs.
  destruct (handleSendMessage v clock s0) as [at_ l s|s] eqn:E.
  - split; [exact Hs|].
    destruct (handleSendMessage_started _ _ _ _ _ _ E) as (_ & _ & Hm & _).
    rewrite Hm, app_two, removelast_last.
    now rewrite count_streaming_app, H0.
  - unfold handleSendMessage in E.
    destruct (_ || _); [now injection E as <-|].
    destruct (token v) as [[|c tok]|]; try discriminate; now injection E as <-.
Qed.

(** X15. If no message is marked as streaming when a message is sent,
    then while the turn is suspended exactly one message is, the last
    one; and once the turn has returned, through the end of the stream,
    a response that is not ok, an error or a cancellation, none is.  A
    rejection with an [AbortError] that [handleCancelRequest] did not
    cause is left out: the [catch] block then leaves the message as it
    is. *)
Theorem streaming_flag_is_cleared (v : View) (clock : Clock) (s0 : State)
        (events : list Event) :
  count_streaming (messages s0) = 0 ->
  forallb no_stray_abort events = true ->
  match run JSON_parse ToString (handleSendMessage v clock s0) events with
  | Suspended _ _ s =>
      count_streaming (messages s) = 1
      /\ exists msg, last_message s = Some msg /\ isStreaming msg = Some true
  | Returned s => count_streaming (messages s) = 0
  end.
Proof.
  intros H0 He.
  pose proof (run_spinner events He _ (handleSendMessage_spinner v clock s0 H0)) as H.
  destruct (run JSON_parse ToString (handleSendMessage v clock s0) events)
    as [at_ l s|s]; [|exact H].
  destruct H as [(_ & before & msg & Hm & _ & _ & Hstr & _) Hc].
  rewrite Hm, removelast_last in Hc. split.
  - rewrite Hm, count_streaming_app, Hc. unfold count_streaming. simpl.
    now rewrite Hstr.
  - exists msg. split; [|exact Hstr]. now apply (last_message_snoc s before).
Qed.

End Spinner.

(** A sample turn that streams, and then either ends or is cancelled. *)
Lemma streaming_flag_is_cleared_sample :
  (exists l s,
      run JSON.parse sample_ToString
          (handleSendMessage (sample_view false) sample_clock sample_state) sample_events
      = Suspended AwaitRead l s
      /\ count_streaming (messages s) = 1)
  /\ (exists s,
         run JSON.parse sample_ToString
             (handleSendMessage (sample_view false) sample_clock sample_state)
             (sample_events ++ [Cancel])
         = Returned s
         /\ count_streaming (messages s) = 0).
Proof.
  assert (HT : forall (value : JS.Value) (error : Thrown),
             sample_ToString value = Throw error -> is_AbortError error = false)
    by (intros value error E; discriminate E).
  split.
  - pose proof (streaming_flag_is_cleared JSON.parse sample_ToString HT (sample_view false)
                  sample_clock sample_state sample_events eq_refl eq_refl) as H.
    assert (E : exists l s,
               run JSON.parse sample_ToString
                   (handleSendMessage (sample_view false) sample_clock sample_state)
                   sample_events
               = Suspended AwaitRead l s)
      by (vm_compute; eexists; eexists; reflexivity).
    destruct E as (l & s & E). rewrite E in H.
    exists l, s. split; [exact E | exact (proj1 H)].
  - pose proof (streaming_flag_is_cleared JSON.parse sample_ToString HT (sample_view false)
                  sample_clock sample_state (sample_events ++ [Cancel]) eq_refl eq_refl)
      as H.
    assert (E : exists s,
               run JSON.parse sample_ToString
                   (handleSendMessage (sample_view false) sample_clock sample_state)
                   (sample_events ++ [Cancel])
               = Returned s)
      by (vm_compute; eexists; reflexivity).
    destruct E as (s & E). rewrite E in H.
    exists s. split; [exact E | exact H].
Defined.

(** * Streams of objects with text between them *)

Section Items.

Import JSString StringFacts.

Context {A : Type}.
Variable JSON_parse : string -> Completion A.

Lemma plain_cons (c : ascii) (s : string) :
  plain (String c s) = true ->
  c <> "{"%char /\ c <> "}"%char /\ c <> dquote /\ c <> "\"%char /\ plain s = true.
Proof.
  simpl. intros H. apply andb_prop in H. destruct H as [H Hs].
  apply negb_true_iff in H.
  apply orb_false_iff in H. destruct H as [H H4].
  apply orb_false_iff in H. destruct H as [H H3].
  apply orb_false_iff in H. destruct H as [H1 H2].
  repeat split; try assumption; now apply Ascii.eqb_neq.
Qed.

(** Plain text moves nothing, at any depth. *)
Lemma sweep_plain (remaining pre : string) :
  plain pre = true ->
  forall (rest : string) (i : nat) (c : Cursor A),
    inString c = false -> escaped c = false ->
    sweep JSON_parse remaining (pre ++ rest) i c
    = sweep JSON_parse remaining rest (i + String.length pre) c.
Proof.
  induction pre as [|ch pre IH]; intros Hp rest i c Hin Hesc.
  - simpl. now rewrite Nat.add_0_r.
  - apply plain_cons in Hp. destruct Hp as (H1 & H2 & H3 & H4 & Hp).
    cbn [append String.length]. rewrite sweep_cons.
    rewrite advance_plain by assumption.
    rewrite (IH Hp) by assumption. f_equal. lia.
Qed.


(** Inside an object that is not closed nothing is cut. *)
Lemma sweep_open_string (remaining w : string) (i : nat) (c : Cursor A) :
  OpenString w -> inString c = true -> escaped c = false ->
  let c' := sweep JSON_parse remaining w i c in
  parsed c' = parsed c /\ console c' = console c /\ start c' = start c.
Proof.
  intros Hw Hin Hesc. cbv zeta. destruct Hw as [w Hw|w Hw].
  - now rewrite sweep_string_open.
  - rewrite sweep_app, (sweep_string_open JSON_parse remaining w Hw i c Hin Hesc).
    rewrite sweep_cons, advance_backslash by assumption.
    destruct c; simpl; auto.
Qed.

Lemma sweep_open_body (remaining y : string) :
  OpenBody y ->
  forall (i : nat) (c : Cursor A),
    inString c = false -> escaped c = false -> (1 <= depth c)%Z ->
    let c' := sweep JSON_parse remaining y i c in
    parsed c' = parsed c /\ console c' = console c /\ start c' = start c.
Proof.
  induction 1 as [x Hx|x w Hx Hw|x y Hx Hy IH]; intros i c Hin Hesc Hd; cbv zeta.
  - now rewrite sweep_well_nested_end.
  - rewrite sweep_well_nested by assumption.
    rewrite sweep_cons, advance_quote by assumption. rewrite Hin. cbn [negb].
    destruct (sweep_open_string remaining w (S (i + String.length x))
                                (set_inString true c) Hw)
      as (H1 & H2 & H3); [now destruct c | now destruct c |].
    rewrite H1, H2, H3. now destruct c.
  - rewrite sweep_well_nested by assumption.
    rewrite sweep_cons, advance_open by assumption.
    destruct (IH (S (i + String.length x)) (set_depth (depth c + 1) c))
      as (H1 & H2 & H3);
      [now destruct c | now destruct c | destruct c; simpl in *; lia |].
    rewrite H1, H2, H3. now destruct c.
Qed.




End Items.

Section ItemsCut.

Import JSString StringFacts.




End ItemsCut.

Section ItemsTheorems.

Import JSString StringFacts.

Context {A : Type}.
Variable JSON_parse : string -> Completion A.


(** X5. A buffer that ends inside an object is retained whole, with
    nothing returned and nothing logged: whether it ends between the
    members of the object, inside a string literal, right after a
    backslash in a string literal, or inside an object nested at any
    depth, and whatever plain text comes before the opening brace. *)
Theorem open_object_is_retained (pre y : string) :
  plain pre = true -> OpenBody y ->
  parseJSONStream JSON_parse (pre ++ String "{" y)
  = Normal (mkTokens [] (pre ++ String "{" y) []).
Proof.
  intros Hp Hy. rewrite parseJSONStream_sweep. cbv zeta.
  rewrite sweep_plain by (exact Hp || reflexivity).
  rewrite sweep_cons, advance_open by reflexivity.
  destruct (sweep_open_body JSON_parse (pre ++ String "{" y) y Hy
              (S (0 + String.length pre)) (set_depth (depth (@init A) + 1) init))
    as (H1 & H2 & H3); [reflexivity | reflexivity | simpl; lia |].
  rewrite H1, H2, H3. reflexivity.
Qed.

End ItemsTheorems.


Lemma data_key_WellNested : WellNested (quoted "data" ++ ":").
Proof.
  apply (wn_string "data" ":").
  - repeat (apply sb_char; [discriminate | discriminate |]). apply sb_nil.
  - apply wn_char; try discriminate. apply wn_nil.
Qed.

Lemma prompt_tokens_WellNested : WellNested (quoted "prompt_tokens" ++ ":5").
Proof.
  apply (wn_string "prompt_tokens" ":5").
  - repeat (apply sb_char; [discriminate | discriminate |]). apply sb_nil.
  - repeat (apply wn_char; [discriminate | discriminate | discriminate | discriminate |]).
    apply wn_nil.
Qed.


(** That stream evaluated: two objects are returned, the text [{bad}]
    with the line feed before it is logged, and the last line feed is
    left. *)
Example malformed_object_only_dropped_evaluated :
  exists first second,
    parseJSONStream JSON.parse
      (JSString.concat (map item [("", sample_body_flat)])
       ++ item (line_feed, "bad")
       ++ JSString.concat (map item [(line_feed, sample_body_nested)])
       ++ line_feed)
    = Normal (mkTokens [first; second] line_feed [line_feed ++ "{bad}"]).
Proof. vm_compute. eexists. eexists. reflexivity. Qed.


(** X5 at a buffer that ends two objects deep after a line feed, at one
    that ends right after a backslash in a string literal, and at two
    opening braces. *)
Lemma open_object_is_retained_sample :
  parseJSONStream JSON.parse
    (line_feed
     ++ String "{" ((quoted "data" ++ ":") ++ String "{" (quoted "prompt_tokens" ++ ":5")))
  = Normal (mkTokens []
              (line_feed
               ++ String "{" ((quoted "data" ++ ":")
                              ++ String "{" (quoted "prompt_tokens" ++ ":5")))
              [])
  /\ parseJSONStream JSON.parse
       ("" ++ String "{" ((quoted "data" ++ ":") ++ String JSString.dquote ("a" ++ "\")))
     = Normal (mkTokens []
                 ("" ++ String "{" ((quoted "data" ++ ":")
                                    ++ String JSString.dquote ("a" ++ "\")))
                 [])
  /\ parseJSONStream JSON.parse ("" ++ String "{" ("" ++ String "{" ""))
     = Normal (mkTokens [] ("" ++ String "{" ("" ++ String "{" "")) []).
Proof.
  split; [|split]; apply open_object_is_retained; try reflexivity.
  - apply ob_object; [exact data_key_WellNested|].
    apply ob_here. exact prompt_tokens_WellNested.
  - apply ob_string; [exact data_key_WellNested|].
    apply os_backslash. apply sb_char; [discriminate | discriminate | apply sb_nil].
  - apply ob_object; [apply wn_nil|]. apply ob_here. apply wn_nil.
Defined.
